(** * git-diff-format: diff-range extraction and formatter invocation

    A shallow embedding of [git-diff-format.py].  The script reads a unified
    diff on standard input, recovers for every file the line ranges touched
    by the hunks, and runs an external formatter once per file on exactly
    these ranges.

    Conventions of the embedding.
    - The Python [str] values of standard input and of the command line are
      [string]s; a character is an 8-bit code point.
      The classes [\s], [\d] and case folding are Python's, restricted to that
      range.
    - What a child has written and what a file holds are [bytes], a [string]
      of 8-bit values.  The text decoded from them is held in its UTF-8
      encoding: two texts are equal exactly when their encodings are, and the
      bytes 10 and 13 occur in an encoding only as line feed and carriage
      return, so that cutting into lines, comparing and joining are the same
      on the text and on its encoding.  No character class is applied to
      such text.
    - Python [int] values are [Z]; [int()] of a string of digits is its
      value, whatever its length.
    - The value of [-p] is a natural number, as the pattern built from it
      expects.
    - The [dict] built by [main] is iterated in insertion order and is an
      association list here.
    - The pieces of the Python standard library the script calls
      ([re] on the three patterns of [main], [shlex.split], [str.format],
      [str.join], [readlines], [bytes.decode('UTF-8')], the newline
      translation of [open] in text mode) are written out from their
      documented behaviour; [difflib.unified_diff], the child process, the
      file system and the encoding of the locale are parameters of the
      development. *)

From Stdlib Require Import String Ascii List ZArith NArith Bool Lia.
From Stdlib Require Import Decimal DecimalString.
From Stdlib Require DecimalPos.
Import ListNotations.

Open Scope string_scope.
Open Scope Z_scope.

(** ** Characters and strings as Python sees them *)

Module Text.

Definition nl : ascii := "010"%char.
Definition NL : string := String nl EmptyString.

Definition is_nl (c : ascii) : bool := Ascii.eqb c nl.

(** [.] of [re] without DOTALL: any character but a newline. *)
Definition dot (c : ascii) : bool := negb (is_nl c).

(** [\d] for 8-bit code points. *)
Definition is_digit (c : ascii) : bool :=
  let n := N_of_ascii c in (48 <=? n)%N && (n <=? 57)%N.

(** [\s]: TAB LF VT FF CR, FS GS RS US, SPACE, NEL and NBSP. *)
Definition is_space (c : ascii) : bool :=
  let n := N_of_ascii c in
  ((9 <=? n)%N && (n <=? 13)%N) || ((28 <=? n)%N && (n <=? 32)%N)
  || (n =? 133)%N || (n =? 160)%N.

(** [\S] *)
Definition non_space (c : ascii) : bool := negb (is_space c).

(** Case folding as [re.IGNORECASE] applies it to a pattern of ASCII
    letters. *)
Definition lower (c : ascii) : ascii :=
  let n := N_of_ascii c in
  if (65 <=? n)%N && (n <=? 90)%N then ascii_of_N (n + 32) else c.

Definition ci_eqb (a b : ascii) : bool := Ascii.eqb (lower a) (lower b).

Fixpoint lower_str (s : string) : string :=
  match s with
  | EmptyString => EmptyString
  | String c s' => String (lower c) (lower_str s')
  end.

Fixpoint forallb_str (f : ascii -> bool) (s : string) : bool :=
  match s with
  | EmptyString => true
  | String c s' => f c && forallb_str f s'
  end.

Definition is_empty (s : string) : bool :=
  match s with EmptyString => true | _ => false end.

(** The longest prefix whose characters satisfy [f], and what follows:
    a greedy [X*] with nothing after it that could make it give back. *)
Fixpoint span (f : ascii -> bool) (s : string) : string * string :=
  match s with
  | EmptyString => (EmptyString, EmptyString)
  | String c s' =>
      if f c then let (a, b) := span f s' in (String c a, b)
      else (EmptyString, s)
  end.

(** A literal at the start of the subject. *)
Fixpoint strip_prefix (lit s : string) : option string :=
  match lit, s with
  | EmptyString, _ => Some s
  | String a lit', String b s' =>
      if Ascii.eqb a b then strip_prefix lit' s' else None
  | String _ _, EmptyString => None
  end.

(** The same, ignoring case. *)
Fixpoint strip_prefix_ci (lit s : string) : option string :=
  match lit, s with
  | EmptyString, _ => Some s
  | String a lit', String b s' =>
      if ci_eqb a b then strip_prefix_ci lit' s' else None
  | String _ _, EmptyString => None
  end.

(** [sep.join(l)] *)
Fixpoint join (sep : string) (l : list string) : string :=
  match l with
  | [] => EmptyString
  | [x] => x
  | x :: rest => x ++ sep ++ join sep rest
  end.

(** [''.join(l)] *)
Definition concat_str (l : list string) : string := String.concat "" l.

(** [readlines()] of a text stream: lines keep their terminator, the last
    line may lack one.  [cur] is the part of the current line read so far. *)
Fixpoint readlines_from (cur : string) (s : string) : list string :=
  match s with
  | EmptyString => if is_empty cur then [] else [cur]
  | String c s' =>
      if is_nl c then (cur ++ NL) :: readlines_from EmptyString s'
      else readlines_from (cur ++ String c EmptyString) s'
  end.

Definition readlines (s : string) : list string :=
  readlines_from EmptyString s.

(** The newline translation of a text file opened for reading with the
    default [newline=None]: a carriage return with or without a line feed
    behind it is read as one line feed. *)
Definition cr : ascii := "013"%char.

Fixpoint universal_newlines (s : string) : string :=
  match s with
  | EmptyString => EmptyString
  | String c s' =>
      if Ascii.eqb c cr then
        match s' with
        | String c' s'' =>
            if is_nl c' then String nl (universal_newlines s'')
            else String nl (universal_newlines s')
        | EmptyString => NL
        end
      else String c (universal_newlines s')
  end.

(** [b.decode('UTF-8')] with strict errors.  A byte of the range
    [lo..hi]: *)
Definition between (lo hi : N) (c : ascii) : bool :=
  let n := N_of_ascii c in (lo <=? n)%N && (n <=? hi)%N.

(** a continuation byte, 80 to BF, *)
Definition continuation (c : ascii) : bool := between 128 191 c.

(** the byte after the lead byte of a sequence of three, which is narrower
    after E0 (no overlong form) and after ED (no surrogate), *)
Definition second_of_three (lead c : ascii) : bool :=
  if (N_of_ascii lead =? 224)%N then between 160 191 c
  else if (N_of_ascii lead =? 237)%N then between 128 159 c
  else continuation c.

(** and of a sequence of four, narrower after F0 (no overlong form) and
    after F4 (nothing above U+10FFFF). *)
Definition second_of_four (lead c : ascii) : bool :=
  if (N_of_ascii lead =? 240)%N then between 144 191 c
  else if (N_of_ascii lead =? 244)%N then between 128 143 c
  else continuation c.

(** The well-formed sequences: one byte up to 7F; two bytes with a lead from
    C2 to DF; three with a lead from E0 to EF; four with a lead from F0 to
    F4. *)
Fixpoint utf8_valid (s : string) : bool :=
  match s with
  | EmptyString => true
  | String c s1 =>
      if between 0 127 c then utf8_valid s1
      else if between 194 223 c then
        match s1 with
        | String c1 s2 => continuation c1 && utf8_valid s2
        | _ => false
        end
      else if between 224 239 c then
        match s1 with
        | String c1 (String c2 s3) =>
            second_of_three c c1 && continuation c2 && utf8_valid s3
        | _ => false
        end
      else if between 240 244 c then
        match s1 with
        | String c1 (String c2 (String c3 s4)) =>
            second_of_four c c1 && continuation c2 && continuation c3
            && utf8_valid s4
        | _ => false
        end
      else false
  end.

(** [None] is the UnicodeDecodeError; the text is held in its encoding. *)
Definition decode_utf8 (b : string) : option string :=
  if utf8_valid b then Some b else None.

(** [int(s)] on a string of decimal digits. *)
Definition digit_val (c : ascii) : Z := Z.of_N (N_of_ascii c) - 48.

Fixpoint int_from (acc : Z) (s : string) : Z :=
  match s with
  | EmptyString => acc
  | String c s' => int_from (10 * acc + digit_val c) s'
  end.

Definition int (s : string) : Z := int_from 0 s.

(** [format(n, 'd')] *)
Definition str_of_int (n : Z) : string := NilZero.string_of_int (Z.to_int n).

(** A format string cut at its replacement fields: ['--lines {:d}-{:d}']
    is [[Lit "--lines "; SlotD; Lit "-"; SlotD]]. *)
Inductive piece : Type :=
| Lit (s : string)
| SlotD.

(** [template.format( *args )] with automatic field numbering; [None] is the
    IndexError of a field that has no argument. *)
Fixpoint format (tpl : list piece) (args : list Z) : option string :=
  match tpl with
  | [] => Some EmptyString
  | Lit s :: tpl' =>
      match format tpl' args with
      | Some r => Some (s ++ r)
      | None => None
      end
  | SlotD :: tpl' =>
      match args with
      | [] => None
      | a :: args' =>
          match format tpl' args' with
          | Some r => Some (str_of_int a ++ r)
          | None => None
          end
      end
  end.

End Text.

(** ** The regular expressions of [main]

    Each pattern is worked out by hand into a function that follows the
    choices of the backtracking matcher of [re] in their order.  The loop of
    [main] uses these functions.  The patterns themselves, as syntax run by a
    general matcher, are in [Regex] below; the theorems on the patterns of
    [main] show that both give the same result on every subject. *)

Module Re.
Import Text.

(** *** The file header pattern, used with [re.search]

    The pattern is [^\+\+\+\ (.*?/){p}] followed by a group 2 that holds
    [\S] under a greedy star.  [^] only holds at offset 0, so the search is
    a match at the start.  The result is group 2. *)

(** One [.*?/] followed by the continuation [k]: the lazy star first tries
    to stop here, and takes one more character only if that fails. *)
Fixpoint lazy_slash {A : Type} (k : string -> option A) (s : string)
  : option A :=
  match s with
  | EmptyString => None
  | String c s' =>
      match (if Ascii.eqb c "/" then k s' else None) with
      | Some r => Some r
      | None => if dot c then lazy_slash k s' else None
      end
  end.

(** [(.*?/){p}] followed by [k]. *)
Fixpoint repeat_slash {A : Type} (p : nat) (k : string -> option A)
  : string -> option A :=
  match p with
  | O => k
  | S p' => lazy_slash (repeat_slash p' k)
  end.

(** Group 2, the greedy run of [\S] that ends the pattern. *)
Definition rest_name (s : string) : option string :=
  Some (fst (span non_space s)).

Definition header_match (p : nat) (line : string) : option string :=
  match strip_prefix "+++ " line with
  | Some rest => repeat_slash p rest_name rest
  | None => None
  end.

(** *** [^<supported_files>$] with [re.match] and [re.IGNORECASE]

    [supported_files] is [.*\.(e1|e2|...)]; the pattern is kept as the list
    of its alternatives. *)

(** [$]: the end of the subject, or just before its final newline. *)
Definition at_end (s : string) : bool :=
  match s with
  | EmptyString => true
  | String c EmptyString => is_nl c
  | _ => false
  end.

(** One alternative followed by [$]. *)
Definition alt_end (s : string) (e : string) : bool :=
  match strip_prefix_ci e s with
  | Some r => at_end r
  | None => false
  end.

(** [.*\.(e1|...)$]: the greedy star gives back until the rest matches. *)
Fixpoint ext_tail (exts : list string) (s : string) : bool :=
  match s with
  | EmptyString => false
  | String c s' =>
      (dot c && ext_tail exts s')
      || (Ascii.eqb c "." && existsb (alt_end s') exts)
  end.

Definition supported_match (exts : list string) (filename : string) : bool :=
  ext_tail exts filename.

(** *** [^@@.*\+(\d+)(,(\d+))?] with [re.search]

    The result is the pair of group 1 and group 3. *)

(** [(,(\d+))?]: group 3, when the optional part takes part in the match. *)
Definition count_group (s : string) : option string :=
  match s with
  | String c r =>
      if Ascii.eqb c "," then
        let d := fst (span is_digit r) in
        if is_empty d then None else Some d
      else None
  | EmptyString => None
  end.

(** [\+(\d+)(,(\d+))?] at the start of [s]. *)
Definition plus_field (s : string) : option (string * option string) :=
  match s with
  | String c r =>
      if Ascii.eqb c "+" then
        let (d, r') := span is_digit r in
        if is_empty d then None else Some (d, count_group r')
      else None
  | EmptyString => None
  end.

(** [.*] followed by the field: the greedy star first takes one more
    character, and stops here only if nothing further on matches. *)
Fixpoint star_plus_field (s : string) : option (string * option string) :=
  match s with
  | EmptyString => None
  | String c s' =>
      match (if dot c then star_plus_field s' else None) with
      | Some r => Some r
      | None => plus_field s
      end
  end.

Definition hunk_match (line : string) : option (string * option string) :=
  match strip_prefix "@@" line with
  | Some rest => star_plus_field rest
  | None => None
  end.

End Re.

(** ** The patterns as [re] runs them

    A backtracking matcher for the fragment of the [re] syntax the script
    uses, and the three patterns of [main] written in that syntax. *)

Module Regex.
Import Text.

(** Stars only range over one-character classes in the patterns at hand. *)
Inductive regex : Type :=
| Eps
| Chr (c : ascii)
| Cls (f : ascii -> bool)
| Seq (a b : regex)
| Alt (a b : regex)
| Star (f : ascii -> bool)
| LazyStar (f : ascii -> bool)
| Opt (a : regex)
| Group (n : nat) (a : regex)
| Bol
| Eol.

(** The groups set so far, the latest first. *)
Definition captures : Type := list (nat * string).

(** [match.group(n)] *)
Fixpoint group (n : nat) (caps : captures) : option string :=
  match caps with
  | [] => None
  | (m, text) :: rest => if Nat.eqb m n then Some text else group n rest
  end.

(** What was read between the position [s] and the later position [s']. *)
Definition consumed (s s' : string) : string :=
  substring 0 (String.length s - String.length s') s.

(** A greedy star over [f], then [k]: one more character first. *)
Fixpoint star {R : Type} (f : ascii -> bool) (s : string)
    (k : string -> option R) : option R :=
  match s with
  | String c s' =>
      if f c then
        match star f s' k with
        | Some r => Some r
        | None => k s
        end
      else k s
  | EmptyString => k s
  end.

(** A lazy star over [f], then [k]: [k] first. *)
Fixpoint lazy_star {R : Type} (f : ascii -> bool) (s : string)
    (k : string -> option R) : option R :=
  match k s with
  | Some r => Some r
  | None =>
      match s with
      | String c s' => if f c then lazy_star f s' k else None
      | EmptyString => None
      end
  end.

(** [run ci subject r s caps k]: match [r] at the position [s] of [subject],
    then go on with [k]; the first way that succeeds is the result.  [ci] is
    [re.IGNORECASE]. *)
Fixpoint run {R : Type} (ci : bool) (subject : string) (r : regex)
    (s : string) (caps : captures)
    (k : string -> captures -> option R) : option R :=
  match r with
  | Eps => k s caps
  | Chr c =>
      match s with
      | String x s' =>
          if (if ci then ci_eqb c x else Ascii.eqb c x) then k s' caps else None
      | EmptyString => None
      end
  | Cls f =>
      match s with
      | String x s' => if f x then k s' caps else None
      | EmptyString => None
      end
  | Seq a b =>
      run ci subject a s caps (fun s' caps' => run ci subject b s' caps' k)
  | Alt a b =>
      match run ci subject a s caps k with
      | Some x => Some x
      | None => run ci subject b s caps k
      end
  | Star f => star f s (fun s' => k s' caps)
  | LazyStar f => lazy_star f s (fun s' => k s' caps)
  | Opt a =>
      match run ci subject a s caps k with
      | Some x => Some x
      | None => k s caps
      end
  | Group n a =>
      run ci subject a s caps
        (fun s' caps' => k s' ((n, consumed s s') :: caps'))
  | Bol =>
      if Nat.eqb (String.length s) (String.length subject) then k s caps
      else None
  | Eol =>
      match s with
      | EmptyString => k s caps
      | String c EmptyString => if is_nl c then k s caps else None
      | _ => None
      end
  end.

Definition match_at (ci : bool) (r : regex) (subject s : string)
  : option captures :=
  run ci subject r s [] (fun _ caps => Some caps).

(** [re.match(r, subject)] *)
Definition re_match (ci : bool) (r : regex) (subject : string)
  : option captures :=
  match_at ci r subject subject.

(** [re.search(r, subject)]: the leftmost position with a match. *)
Fixpoint search_from (ci : bool) (r : regex) (subject s : string)
  : option captures :=
  match match_at ci r subject s with
  | Some caps => Some caps
  | None =>
      match s with
      | String _ s' => search_from ci r subject s'
      | EmptyString => None
      end
  end.

Definition re_search (ci : bool) (r : regex) (subject : string)
  : option captures :=
  search_from ci r subject subject.

(** A literal string. *)
Fixpoint lit (s : string) : regex :=
  match s with
  | EmptyString => Eps
  | String c s' => Seq (Chr c) (lit s')
  end.

(** [e1|e2|...] *)
Fixpoint alts (l : list string) : regex :=
  match l with
  | [] => Cls (fun _ => false)
  | [e] => lit e
  | e :: rest => Alt (lit e) (alts rest)
  end.

(** [r{p}] *)
Fixpoint times (p : nat) (r : regex) : regex :=
  match p with
  | O => Eps
  | S p' => Seq r (times p' r)
  end.

(** [X+] over a class. *)
Definition plus (f : ascii -> bool) : regex := Seq (Cls f) (Star f).

(** The file header pattern: three escaped ['+'], an escaped blank, [p]
    times group 1 (a lazy [.*] and ['/']), and group 2 (a greedy run of
    [\S]), after [^]. *)
Definition header_re (p : nat) : regex :=
  Seq Bol
    (Seq (lit "+++ ")
       (Seq (times p (Group 1 (Seq (LazyStar dot) (Chr "/"))))
          (Group 2 (Star non_space)))).

(** [^.*\.(e1|e2|...)$] *)
Definition supported_re (exts : list string) : regex :=
  Seq Bol
    (Seq (Star dot) (Seq (Chr ".") (Seq (Group 1 (alts exts)) Eol))).

(** [^@@.*\+(\d+)(,(\d+))?] *)
Definition hunk_re : regex :=
  Seq Bol
    (Seq (lit "@@")
       (Seq (Star dot)
          (Seq (Chr "+")
             (Seq (Group 1 (plus is_digit))
                (Opt (Group 2 (Seq (Chr ",") (Group 3 (plus is_digit))))))))).

(** The three calls of [main], with what [main] takes from the match. *)
Definition search_header (p : nat) (line : string) : option string :=
  match re_search false (header_re p) line with
  | Some caps => group 2 caps
  | None => None
  end.

Definition match_supported (exts : list string) (filename : string) : bool :=
  match re_match true (supported_re exts) filename with
  | Some _ => true
  | None => false
  end.

Definition search_hunk (line : string) : option (string * option string) :=
  match re_search false hunk_re line with
  | Some caps =>
      match group 1 caps with
      | Some g1 => Some (g1, group 3 caps)
      | None => None
      end
  | None => None
  end.

(** Ways of looking at a result, used to compare the two matchers. *)
Definition flatten {A : Type} (o : option (option A)) : option A :=
  match o with
  | Some x => x
  | None => None
  end.

Definition groups_1_3 (caps : captures) : option string * option string :=
  (group 1 caps, group 3 caps).

Definition some_first (g : string * option string)
  : option string * option string :=
  (Some (fst g), snd g).

Definition to_opt (b : bool) : option unit := if b then Some tt else None.

End Regex.

(** ** [shlex.split] *)

Module Shlex.
Import Text.

(** The states of [shlex.read_token]: [' '], ['a'], an opening quote, the
    escape character. *)
Inductive lexstate : Type :=
| Blank
| Word
| Quote (q : ascii)
| Escape (e : ascii).

(** [whitespace = ' \t\r\n'] *)
Definition is_whitespace (c : ascii) : bool :=
  Ascii.eqb c " " || Ascii.eqb c "009" || Ascii.eqb c "013"
  || Ascii.eqb c "010".

(** [quotes]: the single and the double quote. *)
Definition is_quote (c : ascii) : bool :=
  Ascii.eqb c "039" || Ascii.eqb c "034".

(** [escape]: the backslash. *)
Definition is_escape (c : ascii) : bool := Ascii.eqb c "092".

(** [escapedquotes]: the double quote. *)
Definition is_escapedquote (c : ascii) : bool := Ascii.eqb c "034".

Definition snoc (s : string) (c : ascii) : string :=
  s ++ String c EmptyString.

Definition cons_token (t : string) (r : option (list string))
  : option (list string) :=
  match r with
  | Some l => Some (t :: l)
  | None => None
  end.

(** The token list of a POSIX-mode lexer with [whitespace_split] set and no
    commenters.  [state] outlives a token; [token], [quoted] and
    [escapedstate] start afresh after each one.  [None] is the ValueError
    of an open quotation or of a trailing escape. *)
Fixpoint tokens (s : string) (state : lexstate) (token : string)
    (quoted : bool) (escapedstate : lexstate) : option (list string) :=
  match s with
  | EmptyString =>
      match state with
      | Blank | Word =>
          if is_empty token && negb quoted then Some [] else Some [token]
      | Quote _ | Escape _ => None
      end
  | String c s' =>
      match state with
      | Blank =>
          if is_whitespace c then
            if negb (is_empty token) || quoted
            then cons_token token (tokens s' Blank EmptyString false Blank)
            else tokens s' Blank token quoted escapedstate
          else if is_escape c then tokens s' (Escape c) token quoted Word
          else if is_quote c then tokens s' (Quote c) token quoted escapedstate
          else tokens s' Word (String c EmptyString) quoted escapedstate
      | Quote q =>
          if Ascii.eqb c q then tokens s' Word token true escapedstate
          else if is_escape c && is_escapedquote q
          then tokens s' (Escape c) token true (Quote q)
          else tokens s' (Quote q) (snoc token c) true escapedstate
      | Escape e =>
          let token :=
            match escapedstate with
            | Quote q =>
                if negb (Ascii.eqb c e) && negb (Ascii.eqb c q)
                then snoc token e else token
            | _ => token
            end in
          tokens s' escapedstate (snoc token c) quoted escapedstate
      | Word =>
          if is_whitespace c then
            if negb (is_empty token) || quoted
            then cons_token token (tokens s' Blank EmptyString false Blank)
            else tokens s' Blank token quoted escapedstate
          else if is_quote c then tokens s' (Quote c) token quoted escapedstate
          else if is_escape c then tokens s' (Escape c) token quoted Word
          else tokens s' Word (snoc token c) quoted escapedstate
      end
  end.

Definition split (s : string) : option (list string) :=
  tokens s Blank EmptyString false Blank.

End Shlex.

(** ** The extraction loop of [main] *)

Module Extract.
Import Text Re.

(** [(start_line, end_line)] *)
Definition range : Type := (Z * Z)%type.

(** [lines_by_file]: keys in insertion order. *)
Definition file_changes : Type := list (string * list range).

(** [d.setdefault(k, []).append(v)] *)
Fixpoint setdefault_append (k : string) (v : range) (d : file_changes)
  : file_changes :=
  match d with
  | [] => [(k, [v])]
  | (k', vs) :: d' =>
      if String.eqb k' k then (k', (vs ++ [v])%list) :: d'
      else (k', vs) :: setdefault_append k v d'
  end.

(** [d.get(k)] *)
Fixpoint lookup (k : string) (d : file_changes) : option (list range) :=
  match d with
  | [] => None
  | (k', vs) :: d' => if String.eqb k' k then Some vs else lookup k d'
  end.

(** The two variables the loop updates. *)
Record loop_state : Type := {
  filename : option string;
  lines_by_file : file_changes
}.

Definition initial : loop_state :=
  {| filename := None; lines_by_file := [] |}.

(** The range a matching hunk header stands for; [None] is the [continue]
    taken when the count is zero. *)
Definition hunk_range (groups : string * option string) : option range :=
  let start_line := int (fst groups) in
  let line_count :=
    match snd groups with
    | Some g3 => int g3
    | None => 1
    end in
  if line_count =? 0 then None
  else Some (start_line, start_line + line_count - 1).

(** One turn of [for line in sys.stdin]. *)
Definition loop_body (p : nat) (supported_files : list string)
    (line : string) (st : loop_state) : loop_state :=
  let filename' :=
    match header_match p line with
    | Some g2 => Some g2
    | None => filename st
    end in
  let skip := {| filename := filename'; lines_by_file := lines_by_file st |} in
  match filename' with
  | None => skip
  | Some f =>
      if negb (supported_match supported_files f) then skip
      else
        match hunk_match line with
        | Some groups =>
            match hunk_range groups with
            | Some r =>
                {| filename := filename';
                   lines_by_file := setdefault_append f r (lines_by_file st) |}
            | None => skip
            end
        | None => skip
        end
  end.

Definition scan (p : nat) (supported_files : list string)
    (lines : list string) (st : loop_state) : loop_state :=
  fold_left (fun st line => loop_body p supported_files line st) lines st.

Definition extract (p : nat) (supported_files : list string)
    (lines : list string) : file_changes :=
  lines_by_file (scan p supported_files lines initial).

End Extract.

(** ** What a run does and how it ends *)

Module Run.

Inductive event : Type :=
| StdinLine (line : string)
| Stdout (text : string)
| Stderr (text : string)
| Popen (argv : list string)
| OpenRead (path : string).

(** How a run stops before the end of the script. *)
Inductive halt : Type :=
| SysExit (status : Z)
| Raised (exn : string).

Inductive result (A : Type) : Type :=
| Ok (a : A)
| Halt (h : halt).
Arguments Ok {A} a.
Arguments Halt {A} h.

(** What [proc.communicate()] and [proc.returncode] give back; [stdout] and
    [stderr] are bytes. *)
Record completed : Type := {
  returncode : Z;
  stdout : string;
  stderr : string
}.

(** The collaborators of the script.  A child process may change the world
    (an in-place formatter rewrites its file); [None] is the exception of a
    process that cannot be started or of a file that cannot be opened.
    [open_read] gives the bytes of the file, and [locale_decode] is the
    codec of the locale's preferred encoding, which [open] in text mode
    applies with strict errors: [None] is its UnicodeDecodeError. *)
Class Platform : Type := {
  World : Type;
  popen : list string -> World -> option completed * World;
  open_read : string -> World -> option string;
  locale_decode : string -> option string;
  unified_diff :
    list string -> list string -> string -> string -> string -> string
    -> list string
}.

Section Monad.
Context `{Platform}.

Definition M (A : Type) : Type := World -> list event * World * result A.

Definition ret {A : Type} (a : A) : M A := fun w => ([], w, Ok a).

Definition bind {A B : Type} (m : M A) (f : A -> M B) : M B := fun w =>
  match m w with
  | (t, w', Ok a) =>
      match f a w' with
      | (t', w'', r) => ((t ++ t')%list, w'', r)
      end
  | (t, w', Halt h) => (t, w', Halt h)
  end.

Definition emit (e : event) : M unit := fun w => ([e], w, Ok tt).

Definition sys_exit {A : Type} (status : Z) : M A :=
  fun w => ([], w, Halt (SysExit status)).

(** [print(s)] *)
Definition print (s : string) : M unit := emit (Stdout (s ++ Text.NL)).

(** [subprocess.Popen(argv, ...)] and [communicate()] *)
Definition communicate (argv : list string) : M completed := fun w =>
  match popen argv w with
  | (Some r, w') => ([Popen argv], w', Ok r)
  | (None, w') => ([Popen argv], w', Halt (Raised "OSError"))
  end.

(** [with open(path) as f: f.readlines()]: the file is opened, its bytes
    are decoded and its newlines translated. *)
Definition open_readlines (path : string) : M (list string) := fun w =>
  match open_read path w with
  | Some b =>
      match locale_decode b with
      | Some text =>
          ([OpenRead path], w,
           Ok (Text.readlines (Text.universal_newlines text)))
      | None => ([OpenRead path], w, Halt (Raised "UnicodeDecodeError"))
      end
  | None => ([OpenRead path], w, Halt (Raised "OSError"))
  end.

(** [b.decode('UTF-8')] *)
Definition decode (b : string) : M string := fun w =>
  match Text.decode_utf8 b with
  | Some text => ([], w, Ok text)
  | None => ([], w, Halt (Raised "UnicodeDecodeError"))
  end.

(** A computation without effect on the world. *)
Definition lift {A : Type} (r : result A) : M A := fun w => ([], w, r).

End Monad.

(** The three components of a finished run. *)
Definition trace_of {W A : Type} (x : list event * W * result A)
  : list event := fst (fst x).
Definition world_of {W A : Type} (x : list event * W * result A) : W :=
  snd (fst x).
Definition result_of {W A : Type} (x : list event * W * result A)
  : result A := snd x.

Declare Scope run_scope.
Delimit Scope run_scope with run.
Notation "x <- m ;; k" := (bind m (fun x => k))
  (at level 61, m at next level, right associativity) : run_scope.
Notation "m ;; k" := (bind m (fun _ => k))
  (at level 61, right associativity) : run_scope.

End Run.

(** ** [class CodeFormatter] *)

Module CodeFormatter.
Import Text Extract Run.
Local Open Scope run_scope.

Record t : Type := {
  binary : string;
  line_format : list piece;
  options : option (list string)
}.

(** [start_lines, end_lines = zip( *lines )]; with no line the unpacking
    fails. *)
Definition unzip_lines (lines : list range) : option (list Z * list Z) :=
  match lines with
  | [] => None
  | _ => Some (map fst lines, map snd lines)
  end.

(** [list(map(line_format.format, start_lines, end_lines))] *)
Fixpoint map_format (tpl : list piece) (starts ends : list Z)
  : option (list string) :=
  match starts, ends with
  | s :: starts', e :: ends' =>
      match format tpl [s; e], map_format tpl starts' ends' with
      | Some a, Some r => Some (a :: r)
      | _, _ => None
      end
  | _, _ => Some []
  end.

(** The list [command] before it is joined and split again. *)
Definition pieces (self : t) (filename : string) (line_args : list string)
    (inplace : bool) (options : option (list string)) : list string :=
  ([binary self]
     ++ (if inplace then ["-i"] else [])
     ++ (match options with Some o => o | None => [] end)
     ++ line_args
     ++ [filename])%list.

(** The argument vector of one file: the lines of [format_code] from the
    unpacking of [lines] to [shlex.split], which have no effect but the
    exceptions they may raise. *)
Definition command (self : t) (filename : string) (lines : list range)
    (inplace : bool) (options : option (list string))
  : result (list string) :=
  match unzip_lines lines with
  | None => Halt (Raised "ValueError")
  | Some (start_lines, end_lines) =>
      match map_format (line_format self) start_lines end_lines with
      | None => Halt (Raised "IndexError")
      | Some line_args =>
          match
            Shlex.split
              (join " " (pieces self filename line_args inplace options))
          with
          | None => Halt (Raised "ValueError")
          | Some argv => Ok argv
          end
      end
  end.

Section FormatCode.
Context `{Platform}.

(** The body of the loop of [format_code]. *)
Definition format_file (self : t) (filename : string) (lines : list range)
    (inplace : bool) (options : option (list string)) (dryrun : bool)
  : M unit :=
  command <- lift (command self filename lines inplace options) ;;
  if negb dryrun then
    proc <- communicate command ;;
    (if negb (returncode proc =? 0)
     then
       text <- decode (stderr proc) ;;
       emit (Stderr text) ;; sys_exit (returncode proc)
     else ret tt) ;;
    if negb inplace then
      original_code <- open_readlines filename ;;
      text <- decode (stdout proc) ;;
      let formatted_code := readlines text in
      let diff :=
        unified_diff original_code formatted_code filename filename
          "(before formatting)" "(after formatting)" in
      let diff_string := concat_str diff in
      if (0 <? String.length diff_string)%nat
      then emit (Stdout diff_string)
      else ret tt
    else ret tt
  else print (join " " command).

Fixpoint format_code (self : t) (lines_by_file : file_changes)
    (inplace : bool) (options : option (list string)) (dryrun : bool)
  : M unit :=
  match lines_by_file with
  | [] => ret tt
  | (filename, lines) :: rest =>
      format_file self filename lines inplace options dryrun ;;
      format_code self rest inplace options dryrun
  end.

End FormatCode.

End CodeFormatter.

(** ** [main] *)

Module Main.
Import Text Extract Run.
Local Open Scope run_scope.

(** The namespace [argparse] hands over; [FORMATTER] is the single element
    of the list [args.FORMATTER], [p] the number given with [-p]. *)
Record args : Type := {
  i : bool;
  dry_run : bool;
  FORMATTER : string;
  p : nat;
  options : option (list string)
}.

Definition clang_format_files : list string :=
  ["cpp"; "cc"; "c++"; "cxx"; "c"; "cl"; "h"; "hpp"; "m"; "mm"; "inc"; "js";
   "ts"; "proto"; "protodevel"; "java"].

Definition yapf_files : list string := ["py"].

Definition clang_format_lines : list piece :=
  [Lit "-lines="; SlotD; Lit ":"; SlotD].

Definition yapf_lines : list piece :=
  [Lit "--lines "; SlotD; Lit "-"; SlotD].

(** The [if]/[elif] chain on [args.FORMATTER[0]]: the formatter and its
    [supported_files]. *)
Definition select_formatter (a : args)
  : option (CodeFormatter.t * list string) :=
  if String.eqb (FORMATTER a) "clang-format" then
    Some ({| CodeFormatter.binary := "clang-format";
             CodeFormatter.line_format := clang_format_lines;
             CodeFormatter.options := options a |}, clang_format_files)
  else if String.eqb (FORMATTER a) "yapf" then
    Some ({| CodeFormatter.binary := "yapf";
             CodeFormatter.line_format := yapf_lines;
             CodeFormatter.options := options a |}, yapf_files)
  else if String.eqb (FORMATTER a) "yapf3" then
    Some ({| CodeFormatter.binary := "yapf3";
             CodeFormatter.line_format := yapf_lines;
             CodeFormatter.options := options a |}, yapf_files)
  else None.

Section Script.
Context `{Platform}.

(** [for line in sys.stdin: ...] *)
Fixpoint for_stdin (p : nat) (supported_files : list string)
    (stdin : list string) (st : loop_state) : M loop_state :=
  match stdin with
  | [] => ret st
  | line :: rest =>
      emit (StdinLine line) ;;
      for_stdin p supported_files rest (loop_body p supported_files line st)
  end.

Definition main (a : args) (stdin : list string) : M unit :=
  match select_formatter a with
  | None =>
      print ("Formatter " ++ FORMATTER a ++ " not implemented") ;;
      sys_exit 78
  | Some (formatter, supported_files) =>
      st <- for_stdin (p a) supported_files stdin initial ;;
      CodeFormatter.format_code formatter (lines_by_file st) (i a)
        (options a) (dry_run a)
  end.

End Script.

(** The exit status of the interpreter as the parent process sees it: the
    low eight bits of the argument of [sys.exit], 1 after an exception. *)
Definition exit_status (r : result unit) : Z :=
  match r with
  | Ok _ => 0
  | Halt (SysExit status) => status mod 256
  | Halt (Raised _) => 1
  end.

End Main.

(** ** Views of the loop used to state its properties *)

Module Observe.
Import Text Re Extract.

(** The value of [filename] after the first statement of the loop body. *)
Definition next_filename (p : nat) (line : string) (fn : option string)
  : option string :=
  match header_match p line with
  | Some g2 => Some g2
  | None => fn
  end.

(** The pair the loop body appends for [line], if it appends one. *)
Definition appended (p : nat) (supported_files : list string)
    (line : string) (fn : option string) : option (string * range) :=
  match next_filename p line fn with
  | None => None
  | Some f =>
      if supported_match supported_files f then
        match hunk_match line with
        | Some groups =>
            match hunk_range groups with
            | Some r => Some (f, r)
            | None => None
            end
        | None => None
        end
      else None
  end.

(** The pairs appended over the whole input, in input order. *)
Fixpoint appends (p : nat) (supported_files : list string)
    (lines : list string) (fn : option string) : list (string * range) :=
  match lines with
  | [] => []
  | line :: rest =>
      (match appended p supported_files line fn with
       | Some e => [e]
       | None => []
       end ++ appends p supported_files rest (next_filename p line fn))%list
  end.

(** The ranges of [f] among such pairs, order kept. *)
Definition ranges_of (f : string) (es : list (string * range)) : list range :=
  map snd (filter (fun e => String.eqb (fst e) f) es).

(** The dictionary after the pairs [es] have been appended in turn. *)
Definition record_all (es : list (string * range)) (d : file_changes)
  : file_changes :=
  fold_left (fun d e => setdefault_append (fst e) (snd e) d) es d.

(** The value of [filename] after the lines have been read. *)
Definition last_filename (p : nat) (lines : list string)
    (fn : option string) : option string :=
  fold_left (fun fn line => next_filename p line fn) lines fn.

(** A full match of [.*\.(e1|...)] ignoring case, said without the
    matcher: a stem free of newlines, a dot, and one of the alternatives up
    to case. *)
Definition full_match_ci (exts : list string) (f : string) : Prop :=
  exists stem ext e,
    f = stem ++ "." ++ ext
    /\ forallb_str dot stem = true
    /\ In e exts
    /\ lower_str ext = lower_str e.

(** The number of ['/'] in a string, and of the segments they delimit. *)
Fixpoint count_slash (s : string) : nat :=
  match s with
  | EmptyString => O
  | String c s' => ((if Ascii.eqb c "/" then 1 else 0) + count_slash s')%nat
  end.

Definition segments (path : string) : nat := S (count_slash path).

(** Some ['+'] directly followed by a digit occurs in [s] before its first
    newline. *)
Fixpoint plus_digit_ahead (s : string) : bool :=
  match s with
  | EmptyString => false
  | String c s' =>
      (Ascii.eqb c "+"
       && match s' with
          | String d _ => is_digit d
          | EmptyString => false
          end)
      || (dot c && plus_digit_ahead s')
  end.

Definition starts_with_digit (s : string) : bool :=
  match s with
  | String d _ => is_digit d
  | EmptyString => false
  end.

(** A non-empty string of decimal digits: what [\d+] matches. *)
Definition digits (s : string) : Prop :=
  forallb_str is_digit s = true /\ s <> EmptyString.

(** Groups 1 and 3 of the hunk pattern are such strings. *)
Definition digit_groups (g : string * option string) : Prop :=
  digits (fst g) /\ match snd g with Some d => digits d | None => True end.

(** The text of a field [+<start>] or [+<start>,<count>]. *)
Definition field (start : string) (count : option string) : string :=
  "+" ++ start ++ match count with Some d => "," ++ d | None => "" end.

(** [post] leaves the field as it is: the last number does not go on into
    [post], and a field without a count is not given one by [post]. *)
Definition ends_field (count : option string) (post : string) : Prop :=
  starts_with_digit post = false
  /\ (count = None -> count_group post = None).

Definition keys (d : file_changes) : list string := map fst d.

(** What holds of [filename] throughout: once set, it is a run of [\S]. *)
Definition filename_ok (fn : option string) : Prop :=
  match fn with
  | Some f => forallb_str non_space f = true
  | None => True
  end.

(** What holds of every pair the loop appends. *)
Definition entry_ok (exts : list string) (e : string * range) : Prop :=
  full_match_ci exts (fst e) /\ fst (snd e) <= snd (snd e).

(** Characters that neither end the line nor open a field. *)
Definition plain (c : ascii) : bool := dot c && negb (Ascii.eqb c "+").

(** Two results of the hunk pattern after which the loop does the same. *)
Definition same_hunk (a b : option (string * option string)) : Prop :=
  match a, b with
  | Some g, Some g' => hunk_range g = hunk_range g'
  | None, None => True
  | _, _ => False
  end.

Definition starts_with_plus (s : string) : Prop :=
  exists t, s = String "+" t.


(** An event that starts a process or opens a file. *)
Definition touches (e : Run.event) : Prop :=
  match e with
  | Run.Popen _ | Run.OpenRead _ => True
  | _ => False
  end.

(** The command of every file, when each one can be built. *)
Fixpoint all_commands (self : CodeFormatter.t) (items : file_changes)
    (inplace : bool) (options : option (list string))
  : option (list (list string)) :=
  match items with
  | [] => Some []
  | (f, lines) :: rest =>
      match CodeFormatter.command self f lines inplace options,
            all_commands self rest inplace options with
      | Run.Ok argv, Some argvs => Some (argv :: argvs)
      | _, _ => None
      end
  end.

(** What [print] writes for a command. *)
Definition printed (argv : list string) : Run.event :=
  Run.Stdout (join " " argv ++ NL).

(** A character [shlex] takes as it is: no white space, no quote, no
    backslash. *)
Definition safe (c : ascii) : bool :=
  negb (Shlex.is_whitespace c) && negb (Shlex.is_quote c)
  && negb (Shlex.is_escape c).

(** A non-empty string of such characters. *)
Definition word (s : string) : Prop :=
  forallb_str safe s = true /\ s <> EmptyString.

(** The argument words of one range under the two templates of the
    script. *)
Definition yapf_words (r : range) : list string :=
  ["--lines"; str_of_int (fst r) ++ "-" ++ str_of_int (snd r)].

Definition clang_format_words (r : range) : list string :=
  ["-lines=" ++ str_of_int (fst r) ++ ":" ++ str_of_int (snd r)].

(** The words of a range for the formatters [main] builds. *)
Definition range_words (self : CodeFormatter.t) (r : range) : list string :=
  if String.eqb (CodeFormatter.binary self) "clang-format"
  then clang_format_words r
  else yapf_words r.

(** [options] when it is [None] adds nothing to the command. *)
Definition forwarded (options : option (list string)) : list string :=
  match options with
  | Some o => o
  | None => []
  end.


(** What a dry run prints and how it ends, computed without a platform. *)
Fixpoint dry_run_of (self : CodeFormatter.t) (items : file_changes)
    (inplace : bool) (options : option (list string))
  : list Run.event * Run.result unit :=
  match items with
  | [] => ([], Run.Ok tt)
  | (f, lines) :: rest =>
      match CodeFormatter.command self f lines inplace options with
      | Run.Ok argv =>
          let (t, r) := dry_run_of self rest inplace options in
          (printed argv :: t, r)
      | Run.Halt h => ([], Run.Halt h)
      end
  end.

(** The number of ['/'] before the first newline. *)
Fixpoint line_slashes (s : string) : nat :=
  match s with
  | EmptyString => O
  | String c s' =>
      if is_nl c then O
      else ((if Ascii.eqb c "/" then 1 else 0) + line_slashes s')%nat
  end.

(** A character of a path segment: neither ['/'] nor a newline. *)
Definition segment_char (c : ascii) : bool :=
  dot c && negb (Ascii.eqb c "/").

(** [seg1/seg2/.../rest] *)
Definition path_of (segs : list string) (rest : string) : string :=
  fold_right (fun seg acc => seg ++ "/" ++ acc) rest segs.

(** Any character but the single quote. *)
Definition no_single_quote (c : ascii) : bool := negb (Ascii.eqb c "039").

(** The commands of the children a run has started, in order. *)
Fixpoint popens (t : list Run.event) : list (list string) :=
  match t with
  | [] => []
  | Run.Popen argv :: t' => argv :: popens t'
  | _ :: t' => popens t'
  end.

(** An event that reads a file or writes to standard output. *)
Definition reads_or_prints (e : Run.event) : Prop :=
  match e with
  | Run.OpenRead _ | Run.Stdout _ => True
  | _ => False
  end.

(** A character that is neither a quote nor a backslash. *)
Definition unquoted (c : ascii) : bool :=
  negb (Shlex.is_quote c) && negb (Shlex.is_escape c).


(** The command [main] is after for a file, as a list of words. *)
Definition expected_command (self : CodeFormatter.t) (inplace : bool)
    (options : option (list string)) (kv : string * list range)
  : list string :=
  ([CodeFormatter.binary self]
     ++ (if inplace then ["-i"] else [])
     ++ forwarded options
     ++ List.concat (map (range_words self) (snd kv))
     ++ [fst kv])%list.

End Observe.

(** ** A platform to run the script on *)

Module Demo.
Import Text Run.

(** A two-line header and the two files in full: enough of a diff to be
    empty exactly on equal inputs. *)
Definition whole_file_diff (a b : list string) (fromfile tofile : string)
    (fromdate todate : string) : list string :=
  let from_line := "--- " ++ fromfile ++ " " ++ fromdate ++ NL in
  let to_line := "+++ " ++ tofile ++ " " ++ todate ++ NL in
  if list_eq_dec string_dec a b then []
  else
    from_line :: to_line
      :: List.app (map (fun l => "-" ++ l) a) (map (fun l => "+" ++ l) b).

(** The world is the number of children started so far; every child gives
    [child] back, every file holds what [disk] says; the locale is UTF-8. *)
Definition platform (child : list string -> completed)
    (disk : string -> option string) : Platform :=
  {| World := nat;
     popen := fun argv w => (Some (child argv), S w);
     open_read := fun path _ => disk path;
     locale_decode := decode_utf8;
     unified_diff := whole_file_diff |}.

(** A child that succeeds in silence, a disk without files. *)
Definition silent (argv : list string) : completed :=
  {| returncode := 0; stdout := EmptyString; stderr := EmptyString |}.

Definition no_disk (path : string) : option string := None.

Definition idle : Platform := platform silent no_disk.

(** The diff of the end-to-end scenario. *)
Definition scenario : list string :=
  ["+++ b/pkg/x.py" ++ NL; "@@ -10,0 +10,3 @@" ++ NL].

Definition yapf_args (p : nat) (dry_run : bool) : Main.args :=
  {| Main.i := false; Main.dry_run := dry_run; Main.FORMATTER := "yapf";
     Main.p := p; Main.options := None |}.

Definition black_args : Main.args :=
  {| Main.i := false; Main.dry_run := false; Main.FORMATTER := "black";
     Main.p := 1; Main.options := None |}.

(** The failure scenario: two files queued, every child ends with status 2
    and the text [syntax error] on its standard error. *)
Definition failing (argv : list string) : completed :=
  {| returncode := 2; stdout := EmptyString; stderr := "syntax error" |}.

Definition broken : Platform := platform failing no_disk.

Definition two_files : list string :=
  ["+++ b/a.py" ++ NL; "@@ -1 +1 @@" ++ NL;
   "+++ b/b.py" ++ NL; "@@ -2 +2 @@" ++ NL].

(** The end-to-end scenario: the child prints [out], the disk holds
    [disk_text] under every name. *)
Definition printing (out : string) (argv : list string) : completed :=
  {| returncode := 0; stdout := out; stderr := EmptyString |}.

Definition formatter_of (disk_text out : string) : Platform :=
  platform (printing out) (fun _ => Some disk_text).

(** The formatter [main] builds for [yapf] without [-o]. *)
Definition yapf : CodeFormatter.t :=
  {| CodeFormatter.binary := "yapf";
     CodeFormatter.line_format := Main.yapf_lines;
     CodeFormatter.options := None |}.

(** A machine on which no child can be started. *)
Definition absent : Platform :=
  {| World := nat;
     popen := fun argv w => (None, w);
     open_read := fun path _ => None;
     locale_decode := decode_utf8;
     unified_diff := whole_file_diff |}.

(** A child that ends with status 2 and, on its standard error, the Latin-1
    bytes of the word cafe with an acute accent, which are not UTF-8. *)
Definition garbled (argv : list string) : completed :=
  {| returncode := 2; stdout := EmptyString;
     stderr := "caf" ++ String "233" EmptyString |}.

Definition latin1 : Platform := platform garbled no_disk.



(** A diff that selects a file whose name holds a quote. *)
Definition quote_diff : list string :=
  ["+++ it's.py" ++ NL; "@@ -1 +1 @@" ++ NL].

End Demo.

Import Text Re Shlex Extract Run Observe.

(** * Properties *)

(** ** Sanity checks of the matchers on lines of a real diff *)

Example header_strips_one_segment :
  header_match 1 ("+++ b/src/foo.py" ++ NL) = Some "src/foo.py".
Proof. reflexivity. Qed.

Example header_keeps_all_without_p :
  header_match 0 ("+++ b/pkg/x.py" ++ NL) = Some "b/pkg/x.py".
Proof. reflexivity. Qed.

Example header_needs_enough_slashes :
  header_match 3 ("+++ b/pkg/x.py" ++ NL) = None.
Proof. reflexivity. Qed.

Example hunk_with_count :
  hunk_match ("@@ -10,0 +10,3 @@" ++ NL) = Some ("10", Some "3").
Proof. reflexivity. Qed.

Example hunk_without_count :
  hunk_match ("@@ -7 +7 @@ def f():" ++ NL) = Some ("7", None).
Proof. reflexivity. Qed.

Example supported_ignores_case :
  supported_match Main.yapf_files "pkg/x.PY" = true
  /\ supported_match Main.yapf_files "notes.txt" = false
  /\ supported_match Main.clang_format_files "a/b.c++" = true.
Proof. repeat split; reflexivity. Qed.

Example notes_txt_is_filtered :
  extract 0 Main.yapf_files ["+++ notes.txt" ++ NL; "@@ -1 +1,2 @@" ++ NL] = [].
Proof. reflexivity. Qed.

Example shlex_examples :
  split "yapf --lines 10-12 pkg/x.py" = Some ["yapf"; "--lines"; "10-12"; "pkg/x.py"]
  /\ split "a 'b c' d\ e" = Some ["a"; "b c"; "d e"]
  /\ split "it's" = None.
Proof. repeat split; reflexivity. Qed.

(** [bytes.decode('UTF-8')]: the two bytes of an accented letter and the
    three of the euro sign are text; a Latin-1 byte, a sequence cut short,
    an overlong form, a surrogate and a value above U+10FFFF are not. *)
Example decode_examples :
  decode_utf8 ("caf" ++ String "195" (String "169" EmptyString))
  = Some ("caf" ++ String "195" (String "169" EmptyString))
  /\ utf8_valid (String "226" (String "130" (String "172" EmptyString))) = true
  /\ decode_utf8 ("caf" ++ String "233" EmptyString) = None
  /\ utf8_valid (String "226" (String "130" EmptyString)) = false
  /\ utf8_valid (String "192" (String "128" EmptyString)) = false
  /\ utf8_valid (String "237" (String "160" (String "128" EmptyString))) = false
  /\ utf8_valid
       (String "244" (String "144" (String "128" (String "128" EmptyString))))
     = false.
Proof. repeat split; reflexivity. Qed.

(** Text mode reads the three line ends alike; [readlines] of a stream in
    memory keeps the carriage return. *)
Example newline_examples :
  universal_newlines
    ("a" ++ String cr NL ++ "b" ++ String cr ("c" ++ NL ++ "d" ++ String cr EmptyString))
  = "a" ++ NL ++ "b" ++ NL ++ "c" ++ NL ++ "d" ++ NL
  /\ readlines (universal_newlines ("a" ++ String cr NL)) = ["a" ++ NL]
  /\ readlines ("a" ++ String cr NL) = ["a" ++ String cr NL].
Proof. repeat split; reflexivity. Qed.

(** The exit status keeps the low eight bits of the argument of
    [sys.exit]. *)
Example exit_status_examples :
  Main.exit_status (Halt (SysExit 2)) = 2
  /\ Main.exit_status (Halt (SysExit (-11))) = 245
  /\ Main.exit_status (Halt (SysExit 256)) = 0
  /\ Main.exit_status (Halt (Raised "OSError")) = 1.
Proof. repeat split; reflexivity. Qed.

(** ** Strings *)

Lemma span_all (f : ascii -> bool) (s : string) :
  forallb_str f (fst (span f s)) = true.
Proof.
  induction s as [|c s IH]; simpl; [reflexivity|].
  destruct (f c) eqn:E; [|reflexivity].
  destruct (span f s) as [a b]; simpl in *. now rewrite E.
Qed.



(** A run of [f] followed by something that does not start with [f] is cut
    exactly there. *)
Lemma span_exact (f : ascii -> bool) (a b : string) :
  forallb_str f a = true ->
  match b with String c _ => f c = false | EmptyString => True end ->
  span f (a ++ b) = (a, b).
Proof.
  intros Ha Hb. induction a as [|c a IH]; simpl in *.
  - destruct b as [|c b]; [reflexivity|]. simpl. now rewrite Hb.
  - apply andb_true_iff in Ha as [Hc Ha]. rewrite Hc, (IH Ha). reflexivity.
Qed.


Lemma is_empty_false (s : string) : is_empty s = false <-> s <> EmptyString.
Proof. destruct s; simpl; split; congruence. Qed.

Lemma app_empty_r (s : string) : s ++ EmptyString = s.
Proof. induction s as [|c s IH]; simpl; congruence. Qed.

Lemma app_assoc_str (a b c : string) : (a ++ b) ++ c = a ++ (b ++ c).
Proof. induction a as [|x a IH]; simpl; congruence. Qed.

Lemma forallb_str_app (f : ascii -> bool) (a b : string) :
  forallb_str f (a ++ b) = forallb_str f a && forallb_str f b.
Proof.
  induction a as [|c a IH]; simpl; [reflexivity|].
  now rewrite IH, andb_assoc.
Qed.

Lemma forallb_str_impl (f g : ascii -> bool) (s : string) :
  (forall c, f c = true -> g c = true) ->
  forallb_str f s = true -> forallb_str g s = true.
Proof.
  intros Hfg. induction s as [|c s IH]; simpl; [reflexivity|].
  intros H. apply andb_true_iff in H as [Hc Hs].
  now rewrite (Hfg _ Hc), IH.
Qed.

(** ** [int] of a string of digits *)

Lemma digit_val_range (c : ascii) :
  is_digit c = true -> 0 <= digit_val c <= 9.
Proof.
  unfold is_digit, digit_val. intros H. cbv zeta in H.
  apply andb_true_iff in H as [H1 H2].
  apply N.leb_le in H1, H2.
  generalize dependent (N_of_ascii c); intros; lia.
Qed.

Lemma int_from_nonneg (s : string) (acc : Z) :
  forallb_str is_digit s = true -> 0 <= acc -> 0 <= int_from acc s.
Proof.
  revert acc.
  induction s as [|c s IH]; cbn [int_from forallb_str]; intros acc H Hacc;
    [exact Hacc|].
  apply andb_true_iff in H as [Hc Hs].
  apply IH; [exact Hs|]. pose proof (digit_val_range c Hc). lia.
Qed.

Lemma int_nonneg (s : string) : forallb_str is_digit s = true -> 0 <= int s.
Proof. intros H. apply int_from_nonneg; [exact H | lia]. Qed.

(** ** What the matchers return *)

Lemma count_group_digits (s d : string) :
  count_group s = Some d -> digits d.
Proof.
  destruct s as [|c r]; simpl; [discriminate|].
  destruct (Ascii.eqb c ","); [|discriminate].
  destruct (is_empty (fst (span is_digit r))) eqn:E; [discriminate|].
  intros [= <-]. split; [apply span_all | now apply is_empty_false].
Qed.

Lemma plus_field_digits (s : string) (g : string * option string) :
  plus_field s = Some g -> digit_groups g.
Proof.
  destruct s as [|c r]; simpl; [discriminate|].
  destruct (Ascii.eqb c "+"); [|discriminate].
  pose proof (span_all is_digit r) as Hall.
  destruct (span is_digit r) as [d r'] eqn:E; simpl in Hall.
  destruct (is_empty d) eqn:Ed; [discriminate|].
  intros [= <-]. split; simpl.
  - split; [exact Hall | now apply is_empty_false].
  - destruct (count_group r') eqn:Ec; [|exact I].
    eapply count_group_digits; eassumption.
Qed.

Lemma star_plus_field_digits (s : string) (g : string * option string) :
  star_plus_field s = Some g -> digit_groups g.
Proof.
  induction s as [|c s IH]; [discriminate|].
  cbn [star_plus_field].
  destruct (if dot c then star_plus_field s else None) eqn:E.
  - intros [= <-]. destruct (dot c); [auto | discriminate].
  - apply plus_field_digits.
Qed.

Lemma hunk_match_digits (line : string) (g : string * option string) :
  hunk_match line = Some g -> digit_groups g.
Proof.
  unfold hunk_match. destruct (strip_prefix "@@" line); [|discriminate].
  apply star_plus_field_digits.
Qed.

(** [end_line] is never below [start_line]. *)
Lemma hunk_range_ordered (g : string * option string) (r : range) :
  digit_groups g -> hunk_range g = Some r -> fst r <= snd r.
Proof.
  intros [_ Hc]. unfold hunk_range.
  destruct (snd g) as [d|].
  - destruct Hc as [Hd _]. pose proof (int_nonneg d Hd).
    destruct (int d =? 0) eqn:E; [discriminate|].
    apply Z.eqb_neq in E. intros [= <-]. simpl. lia.
  - simpl. intros [= <-]. simpl. lia.
Qed.

Lemma lazy_slash_some {A : Type} (k : string -> option A) (s : string) (r : A) :
  lazy_slash k s = Some r -> exists a b, s = a ++ "/" ++ b /\ k b = Some r.
Proof.
  induction s as [|c s IH]; [discriminate|].
  cbn [lazy_slash].
  destruct (if Ascii.eqb c "/" then k s else None) eqn:E.
  - intros [= <-]. destruct (Ascii.eqb c "/") eqn:Ec; [|discriminate].
    apply Ascii.eqb_eq in Ec. subst c. exists EmptyString, s. now split.
  - destruct (dot c); [|discriminate]. intros Hr.
    destruct (IH Hr) as (a & b & -> & Hk).
    exists (String c a), b. now split.
Qed.

Lemma repeat_slash_some {A : Type} (p : nat) (k : string -> option A)
    (s : string) (r : A) :
  repeat_slash p k s = Some r -> exists a b, s = a ++ b /\ k b = Some r.
Proof.
  revert s. induction p as [|p IH]; intros s; cbn [repeat_slash].
  - intros Hk. exists EmptyString, s. now split.
  - intros Hr. apply lazy_slash_some in Hr as (a & b & -> & Hb).
    apply IH in Hb as (a' & b' & -> & Hk).
    exists (a ++ "/" ++ a'), b'. split; [|exact Hk].
    now rewrite !app_assoc_str.
Qed.

(** The filename a header yields holds no white space. *)
Lemma header_match_non_space (p : nat) (line f : string) :
  header_match p line = Some f -> forallb_str non_space f = true.
Proof.
  unfold header_match. destruct (strip_prefix "+++ " line); [|discriminate].
  intros Hr. apply repeat_slash_some in Hr as (a & b & _ & Hk).
  unfold rest_name in Hk. injection Hk as <-. apply span_all.
Qed.

(** ** [re.match] on the extension pattern is a full match *)


Lemma strip_prefix_ci_some (e s r : string) :
  strip_prefix_ci e s = Some r ->
  exists x, s = x ++ r /\ lower_str x = lower_str e.
Proof.
  revert s. induction e as [|a e IH]; intros s; simpl.
  - intros [= <-]. now exists EmptyString.
  - destruct s as [|b s]; [discriminate|].
    destruct (ci_eqb a b) eqn:E; [|discriminate].
    intros Hr. destruct (IH _ Hr) as (x & -> & Hx).
    exists (String b x). split; [reflexivity|]. simpl.
    apply Ascii.eqb_eq in E. now rewrite Hx, E.
Qed.

Lemma ext_tail_full_match (exts : list string) (f : string) :
  forallb_str non_space f = true ->
  ext_tail exts f = true -> full_match_ci exts f.
Proof.
  induction f as [|c f IH]; [discriminate|].
  cbn [ext_tail forallb_str]. intros Hns H.
  apply andb_true_iff in Hns as [Hc Hf].
  apply orb_true_iff in H as [H|H].
  - apply andb_true_iff in H as [Hd Ht].
    destruct (IH Hf Ht) as (stem & ext & e & -> & Hs & He & Hl).
    exists (String c stem), ext, e. repeat split; try assumption.
    simpl. now rewrite Hd, Hs.
  - apply andb_true_iff in H as [Hd Hx]. apply Ascii.eqb_eq in Hd. subst c.
    apply existsb_exists in Hx as (e & He & Ha).
    unfold alt_end in Ha.
    destruct (strip_prefix_ci e f) as [r|] eqn:E; [|discriminate].
    apply strip_prefix_ci_some in E as (x & -> & Hx).
    exists EmptyString, x, e. repeat split; try assumption.
    destruct r as [|c [|c' r]]; simpl in Ha; try discriminate.
    + now rewrite app_empty_r.
    + rewrite forallb_str_app in Hf. apply andb_true_iff in Hf as [_ Hf].
      simpl in Hf. unfold is_nl in Ha. apply Ascii.eqb_eq in Ha. subst c.
      discriminate.
Qed.

(** ** The loop, seen through what it appends *)

Lemma loop_body_spec (p : nat) (exts : list string) (line : string)
    (st : loop_state) :
  loop_body p exts line st =
  {| filename := next_filename p line (filename st);
     lines_by_file :=
       match appended p exts line (filename st) with
       | Some e => setdefault_append (fst e) (snd e) (lines_by_file st)
       | None => lines_by_file st
       end |}.
Proof.
  unfold loop_body, appended, next_filename.
  destruct (header_match p line) as [g2|]; [|destruct (filename st) as [f|]];
    try reflexivity;
    match goal with
    | |- context [supported_match exts ?f] =>
        destruct (supported_match exts f); simpl; [|reflexivity];
        destruct (hunk_match line) as [g|]; [|reflexivity];
        destruct (hunk_range g); reflexivity
    end.
Qed.

Lemma scan_spec (p : nat) (exts : list string) (lines : list string)
    (st : loop_state) :
  scan p exts lines st =
  {| filename := last_filename p lines (filename st);
     lines_by_file :=
       record_all (appends p exts lines (filename st)) (lines_by_file st) |}.
Proof.
  revert st. induction lines as [|line rest IH]; intros st.
  - destruct st; reflexivity.
  - unfold scan in *. cbn [fold_left]. rewrite IH, loop_body_spec.
    cbn [filename lines_by_file appends last_filename fold_left].
    unfold record_all. rewrite fold_left_app.
    destruct (appended p exts line (filename st)); reflexivity.
Qed.

Lemma extract_spec (p : nat) (exts : list string) (lines : list string) :
  extract p exts lines = record_all (appends p exts lines None) [].
Proof. unfold extract. now rewrite scan_spec. Qed.

(** ** The dictionary *)

Lemma lookup_setdefault_append (f k : string) (v : range) (d : file_changes) :
  lookup f (setdefault_append k v d) =
  if String.eqb k f
  then Some (match lookup k d with Some vs => vs | None => [] end ++ [v])%list
  else lookup f d.
Proof.
  induction d as [|[k' vs] d IH]; simpl.
  - destruct (String.eqb k f); reflexivity.
  - destruct (String.eqb k' k) eqn:Ek; simpl.
    + apply String.eqb_eq in Ek. subst k'.
      destruct (String.eqb k f); reflexivity.
    + destruct (String.eqb k' f) eqn:Ef.
      * apply String.eqb_eq in Ef. subst k'.
        rewrite String.eqb_sym, Ek. reflexivity.
      * exact IH.
Qed.

Lemma keys_setdefault_append (k : string) (v : range) (d : file_changes) :
  keys (setdefault_append k v d) =
  if in_dec string_dec k (keys d) then keys d else (keys d ++ [k])%list.
Proof.
  unfold keys. induction d as [|[k' vs] d IH]; simpl; [reflexivity|].
  destruct (String.eqb k' k) eqn:Ek; simpl.
  - apply String.eqb_eq in Ek. subst k'.
    destruct (string_dec k k); [reflexivity | congruence].
  - apply String.eqb_neq in Ek. rewrite IH.
    destruct (string_dec k' k); [congruence|].
    destruct (in_dec string_dec k (map fst d)); reflexivity.
Qed.

Lemma keys_setdefault_append_nodup (k : string) (v : range) (d : file_changes) :
  NoDup (keys d) -> NoDup (keys (setdefault_append k v d)).
Proof.
  intros Hd. rewrite keys_setdefault_append.
  destruct (in_dec string_dec k (keys d)) as [|Hn]; [exact Hd|].
  apply NoDup_app; [exact Hd | repeat constructor; intros [] |].
  intros x Hx [<-|[]]. exact (Hn Hx).
Qed.

Lemma record_all_nodup (es : list (string * range)) (d : file_changes) :
  NoDup (keys d) -> NoDup (keys (record_all es d)).
Proof.
  revert d. induction es as [|e es IH]; intros d Hd; [exact Hd|].
  apply IH, keys_setdefault_append_nodup, Hd.
Qed.

Lemma lookup_record_all (f : string) (es : list (string * range))
    (d : file_changes) :
  lookup f (record_all es d) =
  match lookup f d, ranges_of f es with
  | None, [] => None
  | o, rs => Some (match o with Some vs => vs | None => [] end ++ rs)%list
  end.
Proof.
  revert d. induction es as [|[k v] es IH]; intros d.
  - simpl. destruct (lookup f d); [now rewrite app_nil_r | reflexivity].
  - unfold record_all in *. cbn [fold_left fst snd]. rewrite IH.
    rewrite lookup_setdefault_append. unfold ranges_of. cbn [filter fst].
    destruct (String.eqb k f) eqn:Ek.
    + apply String.eqb_eq in Ek. subst k. cbn [map snd].
      destruct (lookup f d) as [vs|];
        now rewrite <- app_assoc.
    + destruct (lookup f d); reflexivity.
Qed.

Lemma in_lookup (f : string) (rs : list range) (d : file_changes) :
  NoDup (keys d) -> In (f, rs) d -> lookup f d = Some rs.
Proof.
  unfold keys. induction d as [|[k vs] d IH]; simpl; [intros _ []|].
  intros Hd [E|Hin].
  - injection E as -> ->. now rewrite String.eqb_refl.
  - inversion Hd as [|? ? Hk Hd']; subst.
    destruct (String.eqb k f) eqn:Ek; [|now apply IH].
    apply String.eqb_eq in Ek. subst k. exfalso. apply Hk.
    change f with (fst (f, rs)). now apply in_map.
Qed.


(** ** Invariants of the extraction loop *)

Lemma next_filename_ok (p : nat) (line : string) (fn : option string) :
  filename_ok fn -> filename_ok (next_filename p line fn).
Proof.
  unfold next_filename. intros Hfn.
  destruct (header_match p line) as [g2|] eqn:E; [|exact Hfn].
  exact (header_match_non_space _ _ _ E).
Qed.

Lemma appended_ok (p : nat) (exts : list string) (line : string)
    (fn : option string) (e : string * range) :
  filename_ok fn -> appended p exts line fn = Some e -> entry_ok exts e.
Proof.
  intros Hfn. unfold appended.
  pose proof (next_filename_ok p line fn Hfn) as Hn.
  destruct (next_filename p line fn) as [f|]; [|discriminate].
  destruct (supported_match exts f) eqn:Es; [|discriminate].
  destruct (hunk_match line) as [g|] eqn:Eh; [|discriminate].
  destruct (hunk_range g) as [r|] eqn:Er; [|discriminate].
  intros [= <-]. split; simpl.
  - now apply ext_tail_full_match.
  - eapply hunk_range_ordered; [eapply hunk_match_digits|]; eassumption.
Qed.

Lemma appends_ok (p : nat) (exts : list string) (lines : list string)
    (fn : option string) :
  filename_ok fn -> Forall (entry_ok exts) (appends p exts lines fn).
Proof.
  revert fn. induction lines as [|line rest IH]; intros fn Hfn; simpl.
  - constructor.
  - apply Forall_app. split.
    + destruct (appended p exts line fn) as [e|] eqn:E; constructor.
      * eapply appended_ok; eassumption.
      * constructor.
    + apply IH, next_filename_ok, Hfn.
Qed.

Lemma ranges_of_in (f : string) (r : range) (es : list (string * range)) :
  In r (ranges_of f es) -> In (f, r) es.
Proof.
  unfold ranges_of. intros Hin. apply in_map_iff in Hin as ([k v] & <- & Hf).
  apply filter_In in Hf as [Hin Hk]. simpl in Hk.
  apply String.eqb_eq in Hk. now subst k.
Qed.

(** C4.  Whatever the input, [-p] and the formatter: the keys of the result
    are distinct, and every key [f] with its list [rs] is such that [f] fully
    matches the extension pattern up to case, [rs] is not empty, [rs] is the
    sequence of the ranges appended for [f] in the order of the input lines,
    and every range of [rs] has [start_line <= end_line]. *)
Theorem C4_extraction_well_formed (p : nat) (exts : list string)
    (lines : list string) :
  NoDup (keys (extract p exts lines))
  /\ Forall (fun kv : string * list range =>
               full_match_ci exts (fst kv)
               /\ snd kv <> []
               /\ snd kv = ranges_of (fst kv) (appends p exts lines None)
               /\ Forall (fun r : range => fst r <= snd r) (snd kv))
            (extract p exts lines).
Proof.
  assert (Hnd : NoDup (keys (extract p exts lines))).
  { rewrite extract_spec. apply record_all_nodup. constructor. }
  split; [exact Hnd|].
  apply Forall_forall. intros [f rs] Hin. cbn [fst snd].
  pose proof (in_lookup _ _ _ Hnd Hin) as Hl.
  rewrite extract_spec, lookup_record_all in Hl. cbn [lookup] in Hl.
  pose proof (appends_ok p exts lines None I) as Hok.
  rewrite Forall_forall in Hok.
  destruct (ranges_of f (appends p exts lines None)) as [|r rs'] eqn:E;
    [discriminate|].
  injection Hl as <-. cbn [List.app].
  assert (Hr : In (f, r) (appends p exts lines None)).
  { apply ranges_of_in. rewrite E. now left. }
  repeat split.
  - exact (proj1 (Hok _ Hr)).
  - discriminate.
  - apply Forall_forall. intros r' Hr'.
    assert (Hin' : In (f, r') (appends p exts lines None)).
    { apply ranges_of_in. now rewrite E. }
    exact (proj2 (Hok _ Hin')).
Qed.

(** ** The hunk pattern reads the last field of the line *)

Lemma span_none (f : ascii -> bool) (s : string) :
  match s with String c _ => f c = false | EmptyString => True end ->
  span f s = (EmptyString, s).
Proof. destruct s as [|c s]; simpl; [reflexivity|]. now intros ->. Qed.

(** In front of a string that [f] rejects at once, [span] cuts inside the
    prefix. *)
Lemma span_before (f : ascii -> bool) (u x : string) :
  match x with String c _ => f c = false | EmptyString => True end ->
  span f (u ++ x) = (fst (span f u), snd (span f u) ++ x).
Proof.
  intros Hx. induction u as [|c u IH]; simpl.
  - now apply span_none.
  - destruct (f c); [|reflexivity].
    rewrite IH. now destruct (span f u).
Qed.

Lemma star_plus_field_none (s : string) :
  plus_digit_ahead s = false -> star_plus_field s = None.
Proof.
  induction s as [|c s IH]; [reflexivity|].
  cbn [plus_digit_ahead star_plus_field]. intros H.
  apply orb_false_iff in H as [Hhere Hlater].
  assert (Hin : (if dot c then star_plus_field s else None) = None).
  { destruct (dot c); [apply IH; exact Hlater | reflexivity]. }
  rewrite Hin. unfold plus_field.
  destruct (Ascii.eqb c "+"); [|reflexivity].
  simpl in Hhere. rewrite span_none; [reflexivity|].
  destruct s; [exact I | exact Hhere].
Qed.

Lemma star_plus_field_plain (a s : string) :
  forallb_str plain a = true ->
  star_plus_field (a ++ s) = star_plus_field s.
Proof.
  induction a as [|c a IH]; [reflexivity|].
  cbn [forallb_str]. intros H. apply andb_true_iff in H as [Hc Ha].
  apply andb_true_iff in Hc as [Hd Hp]. apply negb_true_iff in Hp.
  simpl. rewrite Hd, Hp, (IH Ha). now destruct (star_plus_field s).
Qed.


Lemma digit_plain (c : ascii) : is_digit c = true -> plain c = true.
Proof.
  destruct c as [[] [] [] [] [] [] [] []]; try discriminate; reflexivity.
Qed.

Lemma digits_plain (d : string) :
  forallb_str is_digit d = true -> forallb_str plain d = true.
Proof. apply forallb_str_impl, digit_plain. Qed.

Lemma star_plus_field_skip (pre s : string) (r : string * option string) :
  forallb_str dot pre = true ->
  star_plus_field s = Some r -> star_plus_field (pre ++ s) = Some r.
Proof.
  intros Hpre Hs. induction pre as [|c pre IH]; [exact Hs|].
  cbn [forallb_str] in Hpre. apply andb_true_iff in Hpre as [Hc Hpre].
  simpl. now rewrite Hc, (IH Hpre).
Qed.

Lemma plus_field_exact (start : string) (count : option string) (post : string) :
  digits start ->
  match count with Some d => digits d | None => True end ->
  ends_field count post ->
  plus_field (field start count ++ post) = Some (start, count).
Proof.
  intros [Hs Hne] Hc [Hpost Hnone]. unfold field.
  rewrite !app_assoc_str.
  change ("+" ++ ?x) with (String "+" x). cbn [plus_field Ascii.eqb Bool.eqb].
  destruct count as [d|].
  - destruct Hc as [Hd Hdne].
    rewrite (span_exact is_digit start); [|exact Hs|reflexivity].
    apply is_empty_false in Hne. rewrite Hne.
    rewrite app_assoc_str.
    change ("," ++ ?x) with (String "," x). cbn [count_group Ascii.eqb Bool.eqb].
    rewrite (span_exact is_digit d); [|exact Hd|].
    + cbn [fst]. apply is_empty_false in Hdne. now rewrite Hdne.
    + destruct post; [exact I | exact Hpost].
  - cbn [String.append].
    rewrite (span_exact is_digit start); [|exact Hs|].
    + apply is_empty_false in Hne. now rewrite Hne, (Hnone eq_refl).
    + destruct post; [exact I | exact Hpost].
Qed.

Lemma field_tail_plain (start : string) (count : option string) :
  digits start ->
  match count with Some d => digits d | None => True end ->
  exists t, field start count = String "+" t /\ forallb_str plain t = true.
Proof.
  intros [Hs _] Hc. unfold field.
  exists (start ++ match count with Some d => "," ++ d | None => "" end).
  split; [reflexivity|]. rewrite forallb_str_app, (digits_plain _ Hs).
  destruct count as [d|]; [|reflexivity].
  destruct Hc as [Hd _]. simpl. now rewrite (digits_plain _ Hd).
Qed.

(** The field that no ['+<digit>'] follows on the line is the one read,
    whatever stands before it. *)
Lemma hunk_match_last_field (pre start : string) (count : option string)
    (post : string) :
  forallb_str dot pre = true ->
  digits start ->
  match count with Some d => digits d | None => True end ->
  ends_field count post ->
  plus_digit_ahead post = false ->
  hunk_match ("@@" ++ pre ++ field start count ++ post) = Some (start, count).
Proof.
  intros Hpre Hs Hc Hend Hpost.
  change ("@@" ++ ?x) with (String "@" (String "@" x)).
  cbn [hunk_match strip_prefix Ascii.eqb Bool.eqb].
  apply star_plus_field_skip; [exact Hpre|].
  pose proof (plus_field_exact start count post Hs Hc Hend) as Hf.
  destruct (field_tail_plain start count Hs Hc) as (t & Et & Ht).
  rewrite Et in *. cbn [String.append] in *.
  cbn [star_plus_field]. change (dot "+") with true. cbv iota.
  rewrite (star_plus_field_plain t post Ht).
  now rewrite (star_plus_field_none post Hpost).
Qed.

(** C10.  On a line that begins with ['@@'] the parser reads start and count
    from the last ['+<digits>[,<digits>]'] of the line: whatever precedes the
    field, if no ['+<digit>'] follows it the groups are those of the field
    (so the reading is the expected one when the field is the only such
    occurrence); and on ['@@ -1,2 +3,4 @@ i+5'] the groups come from the
    trailing ['+5'] and the range recorded is (5, 5), not the one of
    ['+3,4']. *)
Theorem C10_hunk_parser_reads_last_field :
  (forall (pre start : string) (count : option string) (post : string),
      forallb_str dot pre = true ->
      digits start ->
      match count with Some d => digits d | None => True end ->
      ends_field count post ->
      plus_digit_ahead post = false ->
      hunk_match ("@@" ++ pre ++ field start count ++ post)
      = Some (start, count))
  /\ hunk_match ("@@ -1,2 +3,4 @@ i+5" ++ NL) = Some ("5", None)
  /\ extract 0 Main.yapf_files
       ["+++ x.py" ++ NL; "@@ -1,2 +3,4 @@ i+5" ++ NL]
     = [("x.py", [(5, 5)])].
Proof.
  split; [exact hunk_match_last_field|]. split; reflexivity.
Qed.

(** The general part of C10 on the header of the end-to-end scenario. *)
Lemma C10_hunk_parser_reads_last_field_witness :
  hunk_match ("@@" ++ " -10,0 " ++ field "10" (Some "3") ++ " @@" ++ NL)
  = Some ("10", Some "3").
Proof.
  apply (proj1 C10_hunk_parser_reads_last_field " -10,0 " "10" (Some "3")
           (" @@" ++ NL)).
  - reflexivity.
  - split; [reflexivity | discriminate].
  - split; [reflexivity | discriminate].
  - split; [reflexivity | discriminate].
  - reflexivity.
Defined.

(** ** Hunks whose count is zero *)

(** When the field read has a count whose value is zero, nothing is
    appended. *)
Lemma zero_count_appends_nothing (p : nat) (exts : list string)
    (pre start zeros post : string) (fn : option string) :
  forallb_str dot pre = true ->
  digits start ->
  digits zeros ->
  int zeros = 0 ->
  ends_field (Some zeros) post ->
  plus_digit_ahead post = false ->
  appended p exts ("@@" ++ pre ++ field start (Some zeros) ++ post) fn = None.
Proof.
  intros Hpre Hs Hz Hint Hend Hpost. unfold appended.
  destruct (next_filename p _ fn) as [f|]; [|reflexivity].
  destruct (supported_match exts f); [|reflexivity].
  rewrite (hunk_match_last_field pre start (Some zeros) post Hpre Hs Hz Hend Hpost).
  unfold hunk_range. cbn [fst snd]. now rewrite Hint.
Qed.

(** C5, at the input where it fails.  The header carries the field ['+3,0'],
    an explicit count of zero, and still a range is recorded: the one read
    from the ['+5'] of the text that follows the second ['@@']. *)
Theorem C5_zero_count_hunk_records_range :
  extract 0 Main.yapf_files ["+++ x.py" ++ NL; "@@ -1,2 +3,0 @@ i+5" ++ NL]
  = [("x.py", [(5, 5)])].
Proof. reflexivity. Qed.

(** ** A header without count against the same header with count 1 *)

Lemma same_hunk_refl (a : option (string * option string)) : same_hunk a a.
Proof. destruct a; simpl; auto. Qed.

Lemma count_group_before (u x y : string) :
  u <> EmptyString -> starts_with_plus x -> starts_with_plus y ->
  count_group (u ++ x) = count_group (u ++ y).
Proof.
  intros Hu [tx ->] [ty ->]. destruct u as [|c u]; [congruence|].
  simpl. destruct (Ascii.eqb c ","); [|reflexivity].
  now rewrite !(span_before is_digit u (String "+" _)).
Qed.

Lemma plus_field_before (u x y : string) :
  u <> EmptyString -> starts_with_plus x -> starts_with_plus y ->
  plus_field (u ++ x) = plus_field (u ++ y).
Proof.
  intros Hu Hx Hy. destruct u as [|c u]; [congruence|].
  simpl. destruct (Ascii.eqb c "+"); [|reflexivity].
  destruct Hx as [tx ->], Hy as [ty ->].
  rewrite !(span_before is_digit u (String "+" _)) by reflexivity.
  destruct (is_empty (fst (span is_digit u))); [reflexivity|].
  destruct (snd (span is_digit u)) as [|c' r] eqn:E.
  - reflexivity.
  - f_equal. f_equal.
    apply (count_group_before (String c' r)); [discriminate | | ];
      eexists; reflexivity.
Qed.

Lemma star_plus_field_before (pre x y : string) :
  starts_with_plus x -> starts_with_plus y ->
  same_hunk (star_plus_field x) (star_plus_field y) ->
  same_hunk (star_plus_field (pre ++ x)) (star_plus_field (pre ++ y)).
Proof.
  intros Hx Hy Hxy. induction pre as [|c pre IH]; [exact Hxy|].
  cbn [String.append star_plus_field].
  destruct (dot c).
  - destruct (star_plus_field (pre ++ x)) as [g|],
             (star_plus_field (pre ++ y)) as [g'|];
      simpl in IH; try contradiction; [exact IH|].
    change (String c (pre ++ x)) with (String c pre ++ x).
    change (String c (pre ++ y)) with (String c pre ++ y).
    rewrite (plus_field_before (String c pre) x y); [|discriminate|exact Hx|exact Hy].
    apply same_hunk_refl.
  - change (String c (pre ++ x)) with (String c pre ++ x).
    change (String c (pre ++ y)) with (String c pre ++ y).
    rewrite (plus_field_before (String c pre) x y); [|discriminate|exact Hx|exact Hy].
    apply same_hunk_refl.
Qed.

(** The two fields themselves. *)
Lemma field_default_count (start post : string) :
  digits start -> ends_field None post ->
  same_hunk (star_plus_field (field start None ++ post))
            (star_plus_field (field start (Some "1") ++ post)).
Proof.
  intros Hs Hend.
  pose proof (plus_field_exact start None post Hs I Hend) as H0.
  assert (Hend1 : ends_field (Some "1") post).
  { split; [exact (proj1 Hend) | discriminate]. }
  assert (H1c : digits "1") by (split; [reflexivity | discriminate]).
  pose proof (plus_field_exact start (Some "1") post Hs H1c Hend1) as H1.
  destruct (field_tail_plain start None Hs I) as (t0 & E0 & P0).
  destruct (field_tail_plain start (Some "1") Hs H1c) as (t1 & E1 & P1).
  rewrite E0, E1 in *. cbn [String.append] in *.
  cbn [star_plus_field]. change (dot "+") with true. cbv iota.
  rewrite (star_plus_field_plain t0 post P0), (star_plus_field_plain t1 post P1).
  destruct (star_plus_field post) as [g|].
  - reflexivity.
  - rewrite H0, H1. reflexivity.
Qed.

Lemma hunk_match_default_count (pre start post : string) :
  digits start -> ends_field None post ->
  same_hunk (hunk_match ("@@" ++ pre ++ field start None ++ post))
            (hunk_match ("@@" ++ pre ++ field start (Some "1") ++ post)).
Proof.
  intros Hs Hend.
  change ("@@" ++ ?x) with (String "@" (String "@" x)).
  cbn [hunk_match strip_prefix Ascii.eqb Bool.eqb].
  apply star_plus_field_before.
  - eexists; reflexivity.
  - eexists; reflexivity.
  - now apply field_default_count.
Qed.

Lemma header_match_at_at (p : nat) (s : string) :
  header_match p ("@@" ++ s) = None.
Proof. reflexivity. Qed.

Lemma loop_body_same_hunk (p : nat) (exts : list string) (l1 l2 : string)
    (st : loop_state) :
  header_match p l1 = None -> header_match p l2 = None ->
  same_hunk (hunk_match l1) (hunk_match l2) ->
  loop_body p exts l1 st = loop_body p exts l2 st.
Proof.
  intros H1 H2 Hs. unfold loop_body. rewrite H1, H2.
  destruct (filename st) as [f|]; [|reflexivity].
  destruct (supported_match exts f); [|reflexivity]. cbn [negb].
  destruct (hunk_match l1) as [g|], (hunk_match l2) as [g'|];
    simpl in Hs; try contradiction; [|reflexivity].
  now rewrite Hs.
Qed.

Lemma scan_app (p : nat) (exts : list string) (a b : list string)
    (st : loop_state) :
  scan p exts (a ++ b)%list st = scan p exts b (scan p exts a st).
Proof. unfold scan. apply fold_left_app. Qed.

(** C6, as the code has it.  A hunk header without count and the same header
    with the count 1 leave the loop in the same state whatever the state
    before, so the extraction gives the same result whatever the lines
    around them; and when the current file is selected and the field is the
    one read (no ['+<digit>'] after it on the line), what both append is
    (N, N), N being the value of [start]. *)
Theorem C6_header_without_count_is_count_one (p : nat) (exts : list string)
    (pre start post : string) :
  digits start ->
  ends_field None post ->
  let without := "@@" ++ pre ++ field start None ++ post in
  let with_one := "@@" ++ pre ++ field start (Some "1") ++ post in
  (forall before after : list string,
      extract p exts (before ++ without :: after)
      = extract p exts (before ++ with_one :: after))
  /\ (forall (st : loop_state) (f : string),
        forallb_str dot pre = true ->
        plus_digit_ahead post = false ->
        filename st = Some f ->
        supported_match exts f = true ->
        lines_by_file (loop_body p exts without st)
        = setdefault_append f (int start, int start) (lines_by_file st)
        /\ lines_by_file (loop_body p exts with_one st)
           = setdefault_append f (int start, int start) (lines_by_file st)).
Proof.
  intros Hs Hend without with_one.
  assert (Hsame : forall st,
             loop_body p exts without st = loop_body p exts with_one st).
  { intros st. apply loop_body_same_hunk; try apply header_match_at_at.
    now apply hunk_match_default_count. }
  split.
  - intros before after. unfold extract.
    rewrite !scan_app. unfold scan at 1 3. cbn [fold_left].
    now rewrite Hsame.
  - intros st f Hpre Hpost Hf Hsup.
    assert (H0 : lines_by_file (loop_body p exts without st)
                 = setdefault_append f (int start, int start) (lines_by_file st)).
    { rewrite loop_body_spec. cbn [lines_by_file]. unfold appended, next_filename.
      subst without. rewrite header_match_at_at, Hf, Hsup.
      rewrite (hunk_match_last_field pre start None post Hpre Hs I Hend Hpost).
      unfold hunk_range. cbn [fst snd]. change (1 =? 0) with false. cbv iota.
      now replace (int start + 1 - 1) with (int start) by lia. }
    split; [exact H0|]. now rewrite <- Hsame.
Qed.

(** C6 on the header ['@@ -7 +7 @@'] after a file header. *)
Lemma C6_header_without_count_is_count_one_witness :
  extract 1 Main.yapf_files ["+++ b/x.py" ++ NL; "@@ -7 +7 @@" ++ NL]
  = extract 1 Main.yapf_files ["+++ b/x.py" ++ NL; "@@ -7 +7,1 @@" ++ NL].
Proof.
  refine (proj1 (C6_header_without_count_is_count_one 1 Main.yapf_files
                   " -7 " "7" (" @@" ++ NL) _ _)
            ["+++ b/x.py" ++ NL] []).
  - split; [reflexivity | discriminate].
  - split; reflexivity.
Defined.

(** C6 as stated fails twice.  With no file selected neither header records
    a range, so none is (3, 3); and after a selected file, with ['+5'] in the
    text that follows, both headers record (5, 5). *)
Lemma C6_counterexample :
  extract 0 Main.yapf_files ["@@ -1 +3 @@" ++ NL] = []
  /\ extract 0 Main.yapf_files ["@@ -1 +3,1 @@" ++ NL] = []
  /\ extract 0 Main.yapf_files ["+++ x.py" ++ NL; "@@ -1 +3 @@ i+5" ++ NL]
     = [("x.py", [(5, 5)])]
  /\ extract 0 Main.yapf_files ["+++ x.py" ++ NL; "@@ -1 +3,1 @@ i+5" ++ NL]
     = [("x.py", [(5, 5)])].
Proof. repeat split; reflexivity. Qed.

(** ** File headers with too few segments *)

Lemma count_slash_app (a b : string) :
  count_slash (a ++ b) = (count_slash a + count_slash b)%nat.
Proof.
  induction a as [|c a IH]; simpl; [reflexivity|]. rewrite IH. lia.
Qed.

(** [(.*?/){p}] needs [p] slashes. *)
Lemma repeat_slash_needs_slashes {A : Type} (p : nat) (k : string -> option A)
    (s : string) (r : A) :
  repeat_slash p k s = Some r -> (p <= count_slash s)%nat.
Proof.
  revert s. induction p as [|p IH]; intros s; cbn [repeat_slash]; [lia|].
  intros Hr. apply lazy_slash_some in Hr as (a & b & -> & Hb).
  apply IH in Hb. rewrite !count_slash_app. simpl. lia.
Qed.

Lemma header_match_few_slashes (p : nat) (rest : string) :
  (count_slash rest < p)%nat -> header_match p ("+++ " ++ rest) = None.
Proof.
  intros Hlt. change (header_match p ("+++ " ++ rest))
    with (repeat_slash p rest_name rest).
  destruct (repeat_slash p rest_name rest) eqn:E; [|reflexivity].
  apply repeat_slash_needs_slashes in E. lia.
Qed.

Lemma strip_prefix_some (lit s r : string) :
  strip_prefix lit s = Some r -> s = lit ++ r.
Proof.
  revert s. induction lit as [|a lit IH]; intros s; cbn [strip_prefix].
  - now intros [= ->].
  - destruct s as [|b s]; [discriminate|].
    destruct (Ascii.eqb a b) eqn:E; [|discriminate].
    apply Ascii.eqb_eq in E. subst b. intros Hr. simpl. f_equal. now apply IH.
Qed.

Lemma hunk_line_is_no_header (p : nat) (h : string) (g : string * option string) :
  hunk_match h = Some g -> header_match p h = None.
Proof.
  unfold hunk_match.
  destruct (strip_prefix "@@" h) as [r|] eqn:E; [|discriminate].
  apply strip_prefix_some in E. subst h. intros _. apply header_match_at_at.
Qed.

(** While no file header has matched, nothing happens. *)
Lemma scan_without_file (p : nat) (exts : list string) (lines : list string)
    (st : loop_state) :
  filename st = None ->
  Forall (fun l => header_match p l = None) lines ->
  scan p exts lines st = st.
Proof.
  intros Hfn Hall. revert st Hfn.
  induction Hall as [|l lines Hl _ IH]; intros st Hfn; [reflexivity|].
  unfold scan in *. cbn [fold_left].
  assert (E : loop_body p exts l st = st).
  { unfold loop_body. rewrite Hl, Hfn. destruct st; simpl in *. now subst. }
  rewrite E. now apply IH.
Qed.

(** C3, as the code has it.  A ['+++ <path>'] line whose path has fewer
    segments than the strip count does not match the header pattern and
    leaves the loop state, [filename] included, as it was.  If no filename
    was set before, the lines that follow record nothing until a header
    matches; if an earlier header had set a filename that the formatter
    supports, a hunk header that follows is recorded under that earlier
    filename. *)
Theorem C3_short_header_keeps_filename (p : nat) (exts : list string)
    (path eol : string) (st : loop_state) :
  eol = EmptyString \/ eol = NL ->
  (segments path < p)%nat ->
  let line := "+++ " ++ path ++ eol in
  header_match p line = None
  /\ loop_body p exts line st = st
  /\ (filename st = None ->
      forall rest : list string,
        Forall (fun l => header_match p l = None) rest ->
        scan p exts (line :: rest) st = st)
  /\ (forall (f h : string) (g : string * option string) (r : range),
        filename st = Some f ->
        supported_match exts f = true ->
        hunk_match h = Some g ->
        hunk_range g = Some r ->
        scan p exts [line; h] st
        = {| filename := Some f;
             lines_by_file := setdefault_append f r (lines_by_file st) |}).
Proof.
  intros Heol Hseg line.
  assert (Hno : header_match p line = None).
  { apply header_match_few_slashes. rewrite count_slash_app.
    unfold segments in Hseg. destruct Heol as [-> | ->]; simpl; lia. }
  assert (Hbody : loop_body p exts line st = st).
  { unfold loop_body. rewrite Hno.
    change (hunk_match line) with (@None (string * option string)).
    destruct st as [[f|] d]; cbn [filename lines_by_file]; [|reflexivity].
    now destruct (supported_match exts f). }
  split; [exact Hno|]. split; [exact Hbody|]. split.
  - intros Hfn rest Hrest. unfold scan. cbn [fold_left]. rewrite Hbody.
    now apply scan_without_file.
  - intros f h g r Hfn Hsup Hh Hr. unfold scan. cbn [fold_left].
    rewrite Hbody. unfold loop_body.
    rewrite (hunk_line_is_no_header p h g Hh), Hfn, Hsup, Hh, Hr.
    reflexivity.
Qed.

(** C3 on ['+++ y.py'] with [-p 2]. *)
Lemma C3_short_header_keeps_filename_witness :
  header_match 2 ("+++ " ++ "y.py" ++ NL) = None.
Proof.
  refine (proj1 (C3_short_header_keeps_filename 2 Main.yapf_files "y.py" NL
                   initial _ _)).
  - right; reflexivity.
  - unfold segments; simpl; lia.
Defined.

(** C3 as stated fails.  With [-p 2], ['+++ a/b/x.py'] sets the filename
    [x.py]; ['+++ y.py'] has one segment and does not match; the hunk header
    after it still emits a range, recorded under [x.py]. *)
Lemma C3_counterexample :
  (segments "y.py" < 2)%nat
  /\ header_match 2 ("+++ y.py" ++ NL) = None
  /\ extract 2 Main.yapf_files
       ["+++ a/b/x.py" ++ NL; "+++ y.py" ++ NL; "@@ -1 +4,2 @@" ++ NL]
     = [("x.py", [(4, 5)])].
Proof. repeat split. unfold segments; simpl; lia. Qed.

(** ** Runs of the script *)

Section Runs.
Context `{Platform}.

Lemma bind_ok {A B : Type} (m : M A) (f : A -> M B) (w w' : World)
    (t : list event) (a : A) :
  m w = (t, w', Ok a) ->
  bind m f w = ((t ++ trace_of (f a w'))%list, world_of (f a w'),
                result_of (f a w')).
Proof.
  intros Hm. unfold bind, trace_of, world_of, result_of. rewrite Hm.
  now destruct (f a w') as [[t' w''] r].
Qed.

Lemma bind_halt {A B : Type} (m : M A) (f : A -> M B) (w w' : World)
    (t : list event) (h : halt) :
  m w = (t, w', Halt h) -> bind m f w = (t, w', Halt h).
Proof. intros Hm. unfold bind. now rewrite Hm. Qed.

Lemma for_stdin_spec (p : nat) (exts : list string) (stdin : list string)
    (st : loop_state) (w : World) :
  Main.for_stdin p exts stdin st w
  = (map StdinLine stdin, w, Ok (scan p exts stdin st)).
Proof.
  revert st. induction stdin as [|line rest IH]; intros st; [reflexivity|].
  cbn [Main.for_stdin]. unfold bind at 1, emit. rewrite IH. reflexivity.
Qed.

(** With a known formatter, a run reads the whole input and then formats
    the files extracted from it. *)
Lemma main_known (a : Main.args) (stdin : list string) (w : World)
    (self : CodeFormatter.t) (exts : list string) :
  Main.select_formatter a = Some (self, exts) ->
  Main.main a stdin w
  = let x := CodeFormatter.format_code self
               (extract (Main.p a) exts stdin) (Main.i a) (Main.options a)
               (Main.dry_run a) w in
    ((map StdinLine stdin ++ trace_of x)%list, world_of x, result_of x).
Proof.
  intros Hsel. unfold Main.main. rewrite Hsel.
  now rewrite (bind_ok _ _ w w _ _ (for_stdin_spec _ _ _ _ _)).
Qed.

Lemma main_unknown (a : Main.args) (stdin : list string) (w : World) :
  Main.select_formatter a = None ->
  Main.main a stdin w
  = ([Stdout ("Formatter " ++ Main.FORMATTER a ++ " not implemented" ++ NL)],
     w, Halt (SysExit 78)).
Proof.
  intros Hsel. unfold Main.main. rewrite Hsel.
  unfold bind, print, emit, sys_exit. cbn [List.app].
  now rewrite !app_assoc_str.
Qed.

Lemma format_code_app (self : CodeFormatter.t) (pre post : file_changes)
    (inplace : bool) (options : option (list string)) (dryrun : bool) :
  forall w,
    CodeFormatter.format_code self (pre ++ post)%list inplace options dryrun w
    = bind (CodeFormatter.format_code self pre inplace options dryrun)
        (fun _ => CodeFormatter.format_code self post inplace options dryrun) w.
Proof.
  induction pre as [|[f lines] pre IH]; intros w.
  - cbn [List.app CodeFormatter.format_code]. unfold bind, ret.
    now destruct (CodeFormatter.format_code self post inplace options dryrun w)
      as [[t w'] r].
  - cbn [List.app CodeFormatter.format_code]. unfold bind at 1 2 3.
    destruct (CodeFormatter.format_file self f lines inplace options dryrun w)
      as [[t w'] [[]|h]]; [|reflexivity].
    rewrite IH. unfold bind.
    destruct (CodeFormatter.format_code self pre inplace options dryrun w')
      as [[t1 w1] [[]|h1]]; [|reflexivity].
    destruct (CodeFormatter.format_code self post inplace options dryrun w1)
      as [[t2 w2] r2].
    now rewrite app_assoc.
Qed.

(** *** Dry runs *)

Lemma format_file_dry (self : CodeFormatter.t) (f : string)
    (lines : list range) (inplace : bool) (options : option (list string))
    (w : World) :
  CodeFormatter.format_file self f lines inplace options true w
  = match CodeFormatter.command self f lines inplace options with
    | Ok argv => ([printed argv], w, Ok tt)
    | Halt h => ([], w, Halt h)
    end.
Proof.
  unfold CodeFormatter.format_file, bind, lift.
  now destruct (CodeFormatter.command self f lines inplace options).
Qed.

Lemma format_code_dry (self : CodeFormatter.t) (items : file_changes)
    (inplace : bool) (options : option (list string)) (w : World) :
  CodeFormatter.format_code self items inplace options true w
  = (fst (dry_run_of self items inplace options), w,
     snd (dry_run_of self items inplace options)).
Proof.
  induction items as [|[f lines] rest IH]; [reflexivity|].
  cbn [CodeFormatter.format_code dry_run_of]. unfold bind.
  rewrite format_file_dry.
  destruct (CodeFormatter.command self f lines inplace options) as [argv|h];
    [|reflexivity].
  rewrite IH. now destruct (dry_run_of self rest inplace options).
Qed.

End Runs.

Lemma dry_run_of_touches_nothing (self : CodeFormatter.t) (items : file_changes)
    (inplace : bool) (options : option (list string)) :
  Forall (fun e => ~ touches e) (fst (dry_run_of self items inplace options)).
Proof.
  induction items as [|[f lines] rest IH]; [constructor|].
  cbn [dry_run_of].
  destruct (CodeFormatter.command self f lines inplace options); [|constructor].
  destruct (dry_run_of self rest inplace options) as [t r].
  constructor; [intros [] | exact IH].
Qed.

Lemma dry_run_of_all (self : CodeFormatter.t) (items : file_changes)
    (inplace : bool) (options : option (list string))
    (argvs : list (list string)) :
  all_commands self items inplace options = Some argvs ->
  dry_run_of self items inplace options = (map printed argvs, Ok tt).
Proof.
  revert argvs. induction items as [|[f lines] rest IH]; intros argvs.
  - now intros [= <-].
  - cbn [all_commands dry_run_of].
    destruct (CodeFormatter.command self f lines inplace options) as [argv|h];
      [|discriminate].
    destruct (all_commands self rest inplace options) as [rest_argvs|];
      [|discriminate].
    intros [= <-]. now rewrite (IH _ eq_refl).
Qed.

Lemma stdin_touches_nothing (stdin : list string) :
  Forall (fun e => ~ touches e) (map StdinLine stdin).
Proof. induction stdin; constructor; [intros [] | assumption]. Qed.

(** C7.  With a formatter name other than [clang-format], [yapf] and
    [yapf3], whatever the input and the platform, the run consists of one
    thing: the message is printed on standard output; no line of the diff is
    read, no process is started, the world is as before, and the exit status
    is 78. *)
Theorem C7_unknown_formatter_exits_78 `{Platform} (a : Main.args)
    (stdin : list string) (w : World) :
  Main.FORMATTER a <> "clang-format" ->
  Main.FORMATTER a <> "yapf" ->
  Main.FORMATTER a <> "yapf3" ->
  Main.main a stdin w
  = ([Stdout ("Formatter " ++ Main.FORMATTER a ++ " not implemented" ++ NL)],
     w, Halt (SysExit 78))
  /\ Main.exit_status (result_of (Main.main a stdin w)) = 78.
Proof.
  intros H1 H2 H3.
  assert (Hsel : Main.select_formatter a = None).
  { unfold Main.select_formatter.
    apply String.eqb_neq in H1, H2, H3. now rewrite H1, H2, H3. }
  rewrite (main_unknown a stdin w Hsel). split; reflexivity.
Qed.

(** C7 on the name [black], with a diff waiting on standard input. *)
Lemma C7_unknown_formatter_exits_78_witness :
  @Main.main Demo.idle Demo.black_args Demo.scenario O
  = ([Stdout ("Formatter black not implemented" ++ NL)], O, Halt (SysExit 78))
  /\ Main.exit_status
       (result_of (@Main.main Demo.idle Demo.black_args Demo.scenario O)) = 78.
Proof.
  apply (@C7_unknown_formatter_exits_78 Demo.idle Demo.black_args
           Demo.scenario O); discriminate.
Defined.

(** C8, as the code has it.  In a dry run, whatever the input, the options
    and the platform: the world is left as it was and no event of the run
    starts a process or opens a file; the events and the way the run ends
    are the same on any two platforms and worlds, so they depend on the input
    and the options only; and when the command of every selected file can be
    built, the run prints these commands, one line each, in the order of the
    files, and ends normally. *)
Theorem C8_dry_run_prints_and_touches_nothing (a : Main.args)
    (stdin : list string) :
  Main.dry_run a = true ->
  (forall (P : Platform) (w : World),
      world_of (Main.main a stdin w) = w
      /\ Forall (fun e => ~ touches e) (trace_of (Main.main a stdin w)))
  /\ (forall (P1 P2 : Platform) (w1 : @World P1) (w2 : @World P2),
        trace_of (@Main.main P1 a stdin w1) = trace_of (@Main.main P2 a stdin w2)
        /\ result_of (@Main.main P1 a stdin w1)
           = result_of (@Main.main P2 a stdin w2))
  /\ (forall (P : Platform) (w : World) (self : CodeFormatter.t)
             (exts : list string) (argvs : list (list string)),
        Main.select_formatter a = Some (self, exts) ->
        all_commands self (extract (Main.p a) exts stdin) (Main.i a)
          (Main.options a) = Some argvs ->
        Main.main a stdin w
        = ((map StdinLine stdin ++ map printed argvs)%list, w, Ok tt)).
Proof.
  intros Hdry.
  assert (Hrun : forall (P : Platform) (w : World),
             Main.main a stdin w
             = match Main.select_formatter a with
               | Some (self, exts) =>
                   let d := dry_run_of self (extract (Main.p a) exts stdin)
                              (Main.i a) (Main.options a) in
                   ((map StdinLine stdin ++ fst d)%list, w, snd d)
               | None =>
                   ([Stdout ("Formatter " ++ Main.FORMATTER a
                             ++ " not implemented" ++ NL)],
                    w, Halt (SysExit 78))
               end).
  { intros P w. destruct (Main.select_formatter a) as [[self exts]|] eqn:Hsel.
    - rewrite (main_known a stdin w self exts Hsel), Hdry, format_code_dry.
      reflexivity.
    - now apply main_unknown. }
  split; [|split].
  - intros P w. rewrite Hrun.
    destruct (Main.select_formatter a) as [[self exts]|].
    + split; [reflexivity|]. cbn [trace_of fst].
      apply Forall_app. split.
      * apply stdin_touches_nothing.
      * apply dry_run_of_touches_nothing.
    + split; [reflexivity|]. repeat constructor. intros [].
  - intros P1 P2 w1 w2. rewrite (Hrun P1 w1), (Hrun P2 w2).
    destruct (Main.select_formatter a) as [[self exts]|]; split; reflexivity.
  - intros P w self exts argvs Hsel Hall. rewrite Hrun, Hsel.
    now rewrite (dry_run_of_all _ _ _ _ _ Hall).
Qed.

(** C8 on the diff of the end-to-end scenario: one command is printed. *)
Lemma C8_dry_run_prints_and_touches_nothing_witness :
  @Main.main Demo.idle (Demo.yapf_args 1 true) Demo.scenario O
  = ((map StdinLine Demo.scenario
        ++ [Stdout ("yapf --lines 10-12 pkg/x.py" ++ NL)])%list,
     O, Ok tt).
Proof.
  refine (proj2 (proj2 (C8_dry_run_prints_and_touches_nothing
                          (Demo.yapf_args 1 true) Demo.scenario _))
            Demo.idle O _ Main.yapf_files
            [["yapf"; "--lines"; "10-12"; "pkg/x.py"]] _ _); reflexivity.
Defined.

(** C8 as stated fails.  The file [it's.py] is selected, but its command
    line has an open quotation that [shlex.split] refuses: the dry run ends
    with a ValueError and has printed no command. *)
Lemma C8_counterexample :
  extract 0 Main.yapf_files Demo.quote_diff = [("it's.py", [(1, 1)])]
  /\ @Main.main Demo.idle (Demo.yapf_args 0 true) Demo.quote_diff O
     = (map StdinLine Demo.quote_diff, O, Halt (Raised "ValueError")).
Proof. split; reflexivity. Qed.

(** ** Normal runs *)

Section NormalRuns.
Context `{Platform}.

Lemma format_file_child_fails (self : CodeFormatter.t) (f : string)
    (lines : list range) (inplace : bool) (options : option (list string))
    (w w' : World) (argv : list string) (r : completed) (text : string) :
  CodeFormatter.command self f lines inplace options = Ok argv ->
  popen argv w = (Some r, w') ->
  returncode r <> 0 ->
  decode_utf8 (stderr r) = Some text ->
  CodeFormatter.format_file self f lines inplace options false w
  = ([Popen argv; Stderr text], w', Halt (SysExit (returncode r))).
Proof.
  intros Hcmd Hp Hrc Hd. apply Z.eqb_neq in Hrc.
  unfold CodeFormatter.format_file, bind, lift, communicate, emit, sys_exit,
    decode.
  rewrite Hcmd. cbn [negb]. rewrite Hp, Hrc. cbn [negb]. rewrite Hd.
  reflexivity.
Qed.

Lemma format_file_stderr_undecodable (self : CodeFormatter.t) (f : string)
    (lines : list range) (inplace : bool) (options : option (list string))
    (w w' : World) (argv : list string) (r : completed) :
  CodeFormatter.command self f lines inplace options = Ok argv ->
  popen argv w = (Some r, w') ->
  returncode r <> 0 ->
  decode_utf8 (stderr r) = None ->
  CodeFormatter.format_file self f lines inplace options false w
  = ([Popen argv], w', Halt (Raised "UnicodeDecodeError")).
Proof.
  intros Hcmd Hp Hrc Hd. apply Z.eqb_neq in Hrc.
  unfold CodeFormatter.format_file, bind, lift, communicate, emit, sys_exit,
    decode.
  rewrite Hcmd. cbn [negb]. rewrite Hp, Hrc. cbn [negb]. rewrite Hd.
  reflexivity.
Qed.



End NormalRuns.

(** C2.  In a normal run, let the files before [f] have been formatted
    without failure and let the child started for [f] end with a non-zero
    return code.  If what the child wrote on its standard error is valid
    UTF-8, the run ends there: after the events of the earlier files come
    the start of that child and the decoded text written to the standard
    error of the script; the script leaves through [sys.exit] with the
    return code, so that its exit status is the return code modulo 256,
    which is the exit status of a child that has exited with a status from
    1 to 255.  If it is not valid UTF-8, the run ends there with the
    UnicodeDecodeError, status 1, and nothing is written.  Either way
    nothing is done for the files queued after [f]. *)
Theorem C2_fail_fast `{Platform} (a : Main.args) (stdin : list string)
    (self : CodeFormatter.t) (exts : list string)
    (pre post : file_changes) (f : string) (lines : list range)
    (w w1 w2 : World) (t1 : list event) (argv : list string) (r : completed) :
  Main.dry_run a = false ->
  Main.select_formatter a = Some (self, exts) ->
  extract (Main.p a) exts stdin = (pre ++ (f, lines) :: post)%list ->
  CodeFormatter.format_code self pre (Main.i a) (Main.options a) false w
  = (t1, w1, Ok tt) ->
  CodeFormatter.command self f lines (Main.i a) (Main.options a) = Ok argv ->
  popen argv w1 = (Some r, w2) ->
  returncode r <> 0 ->
  (forall text : string,
     decode_utf8 (stderr r) = Some text ->
     Main.main a stdin w
     = ((map StdinLine stdin ++ t1 ++ [Popen argv; Stderr text])%list,
        w2, Halt (SysExit (returncode r)))
     /\ Main.exit_status (result_of (Main.main a stdin w))
        = returncode r mod 256
     /\ (0 < returncode r < 256 ->
         Main.exit_status (result_of (Main.main a stdin w)) = returncode r))
  /\ (decode_utf8 (stderr r) = None ->
      Main.main a stdin w
      = ((map StdinLine stdin ++ t1 ++ [Popen argv])%list,
         w2, Halt (Raised "UnicodeDecodeError"))
      /\ Main.exit_status (result_of (Main.main a stdin w)) = 1).
Proof.
  intros Hdry Hsel Hex Hpre Hcmd Hp Hrc.
  assert (Hrun : forall t h,
             CodeFormatter.format_file self f lines (Main.i a) (Main.options a)
               false w1 = (t, w2, Halt h) ->
             Main.main a stdin w
             = ((map StdinLine stdin ++ t1 ++ t)%list, w2, Halt h)).
  { intros t h Hf.
    rewrite (main_known a stdin w self exts Hsel), Hdry, Hex.
    rewrite format_code_app, (bind_ok _ _ _ _ _ _ Hpre).
    cbn [CodeFormatter.format_code].
    rewrite (bind_halt _ _ _ _ _ _ Hf). reflexivity. }
  split.
  - intros text Hd.
    pose proof (Hrun _ _ (format_file_child_fails self f lines (Main.i a)
                            (Main.options a) w1 w2 argv r text
                            Hcmd Hp Hrc Hd)) as Hmain.
    split; [exact Hmain|]. rewrite Hmain.
    cbn [result_of snd Main.exit_status].
    split; [reflexivity|]. intros Hr. apply Z.mod_small. lia.
  - intros Hd.
    pose proof (Hrun _ _ (format_file_stderr_undecodable self f lines
                            (Main.i a) (Main.options a) w1 w2 argv r
                            Hcmd Hp Hrc Hd)) as Hmain.
    split; [exact Hmain | now rewrite Hmain].
Qed.

(** C2 on the failure scenario: the child of [a.py] ends with status 2, and
    [b.py] is never formatted. *)
Lemma C2_fail_fast_witness :
  @Main.main Demo.broken (Demo.yapf_args 1 false) Demo.two_files O
  = ((map StdinLine Demo.two_files ++ []
        ++ [Popen ["yapf"; "--lines"; "1-1"; "a.py"]; Stderr "syntax error"])%list,
     1%nat, Halt (SysExit 2))
  /\ Main.exit_status
       (result_of (@Main.main Demo.broken (Demo.yapf_args 1 false)
                     Demo.two_files O)) = 2.
Proof.
  assert (Hall :
            returncode (Demo.failing ["yapf"; "--lines"; "1-1"; "a.py"]) <> 0
            -> _) by
    exact (fun Hrc =>
             proj1 (@C2_fail_fast Demo.broken (Demo.yapf_args 1 false)
                      Demo.two_files Demo.yapf Main.yapf_files []
                      [("b.py", [(2, 2)])] "a.py" [(1, 1)] O O 1%nat []
                      ["yapf"; "--lines"; "1-1"; "a.py"] (Demo.failing [])
                      eq_refl eq_refl eq_refl eq_refl eq_refl eq_refl Hrc)
               "syntax error" eq_refl).
  destruct Hall as (Hmain & _ & Hstatus); [discriminate|].
  split; [exact Hmain | apply Hstatus; split; reflexivity].
Defined.

(** C2 as stated fails.  The child of [a.py] ends with status 2 and has
    written four bytes that are not UTF-8 on its standard error: the script
    writes nothing to its own standard error and ends with the
    UnicodeDecodeError, whose exit status is 1 and not 2. *)
Lemma C2_counterexample :
  returncode (Demo.garbled ["yapf"; "--lines"; "1-1"; "a.py"]) = 2
  /\ @Main.main Demo.latin1 (Demo.yapf_args 1 false) Demo.two_files O
     = ((map StdinLine Demo.two_files
           ++ [Popen ["yapf"; "--lines"; "1-1"; "a.py"]])%list,
        1%nat, Halt (Raised "UnicodeDecodeError"))
  /\ Main.exit_status
       (result_of (@Main.main Demo.latin1 (Demo.yapf_args 1 false)
                     Demo.two_files O)) = 1.
Proof. split; [|split]; reflexivity. Qed.

(** ** The end-to-end scenario *)





Lemma concat_str_cons (x : string) (xs : list string) :
  concat_str (x :: xs) = x ++ concat_str xs.
Proof.
  unfold concat_str. destruct xs as [|y ys]; simpl.
  - now rewrite app_empty_r.
  - reflexivity.
Qed.

Lemma readlines_from_concat (cur s : string) :
  concat_str (readlines_from cur s) = cur ++ s.
Proof.
  revert cur. induction s as [|c s IH]; intros cur; cbn [readlines_from].
  - destruct cur; [reflexivity|]. cbn [is_empty].
    now rewrite concat_str_cons.
  - destruct (is_nl c) eqn:E.
    + unfold is_nl in E. apply Ascii.eqb_eq in E. subst c.
      rewrite concat_str_cons, IH. unfold NL. now rewrite app_assoc_str.
    + rewrite IH. now rewrite app_assoc_str.
Qed.







(** ** [shlex.split] on words joined by blanks *)

Lemma snoc_app (tok : string) (c : ascii) (s : string) :
  Shlex.snoc tok c ++ s = tok ++ String c s.
Proof. unfold Shlex.snoc. now rewrite app_assoc_str. Qed.

Lemma safe_inv (c : ascii) :
  safe c = true ->
  is_whitespace c = false /\ is_quote c = false /\ is_escape c = false.
Proof.
  unfold safe. intros H0.
  apply andb_true_iff in H0 as [H0 H3]. apply andb_true_iff in H0 as [H1 H2].
  now rewrite negb_true_iff in H1, H2, H3.
Qed.

Lemma tokens_word_chars (w rest tok : string) (quoted : bool) (es : lexstate) :
  forallb_str safe w = true ->
  tokens (w ++ rest) Word tok quoted es = tokens rest Word (tok ++ w) quoted es.
Proof.
  revert tok. induction w as [|c w IH]; intros tok Hw.
  - now rewrite app_empty_r.
  - cbn [forallb_str] in Hw. apply andb_true_iff in Hw as [Hc Hw].
    destruct (safe_inv c Hc) as (H1 & H2 & H3).
    cbn [String.append tokens]. rewrite H1, H2, H3.
    rewrite (IH _ Hw). now rewrite snoc_app.
Qed.

Lemma tokens_word (w rest : string) :
  word w ->
  tokens (w ++ rest) Blank EmptyString false Blank
  = tokens rest Word w false Blank.
Proof.
  intros [Hw Hne]. destruct w as [|c w]; [congruence|].
  cbn [forallb_str] in Hw. apply andb_true_iff in Hw as [Hc Hw].
  destruct (safe_inv c Hc) as (H1 & H2 & H3).
  cbn [String.append tokens]. rewrite H1, H2, H3.
  now rewrite (tokens_word_chars w rest _ false Blank Hw).
Qed.

Lemma tokens_blank_after_word (w rest : string) (es : lexstate) :
  w <> EmptyString ->
  tokens (" " ++ rest) Word w false es
  = cons_token w (tokens rest Blank EmptyString false Blank).
Proof.
  intros Hne. apply is_empty_false in Hne.
  change (" " ++ rest) with (String " " rest). cbn [tokens].
  change (is_whitespace " ") with true. cbv iota. now rewrite Hne.
Qed.

(** Words joined by single blanks are given back as they are. *)
Lemma split_join_words (ws : list string) :
  Forall word ws -> split (join " " ws) = Some ws.
Proof.
  unfold split. induction ws as [|w ws IH]; intros Hall; [reflexivity|].
  inversion Hall as [|? ? Hw Hws]; subst.
  destruct ws as [|w2 ws].
  - cbn [join]. rewrite <- (app_empty_r w) at 1.
    rewrite (tokens_word w EmptyString Hw). cbn [tokens].
    destruct Hw as [_ Hne]. apply is_empty_false in Hne. now rewrite Hne.
  - change (join " " (w :: w2 :: ws)) with (w ++ " " ++ join " " (w2 :: ws)).
    rewrite (tokens_word _ _ Hw).
    rewrite (tokens_blank_after_word w _ Blank (proj2 Hw)).
    now rewrite (IH Hws).
Qed.

Lemma join_app (a b : list string) :
  a <> [] -> b <> [] ->
  join " " (a ++ b)%list = join " " a ++ " " ++ join " " b.
Proof.
  intros Ha Hb. induction a as [|x a IH]; [congruence|].
  destruct a as [|y a].
  - destruct b as [|z b]; [congruence|]. reflexivity.
  - change (join " " ((x :: y :: a) ++ b)%list)
      with (x ++ " " ++ join " " ((y :: a) ++ b)%list).
    rewrite IH by discriminate.
    change (join " " (x :: y :: a)) with (x ++ " " ++ join " " (y :: a)).
    now rewrite !app_assoc_str.
Qed.

(** Pieces that are themselves words joined by blanks. *)
Lemma join_flatten (wss : list (list string)) :
  Forall (fun ws => ws <> []) wss ->
  join " " (map (join " ") wss) = join " " (List.concat wss).
Proof.
  induction wss as [|ws wss IH]; intros Hall; [reflexivity|].
  inversion Hall as [|? ? Hws Hwss]; subst.
  destruct wss as [|ws2 wss].
  - cbn [map List.concat join]. now rewrite app_nil_r.
  - change (join " " (map (join " ") (ws :: ws2 :: wss)))
      with (join " " ws ++ " " ++ join " " (map (join " ") (ws2 :: wss))).
    rewrite (IH Hwss).
    change (List.concat (ws :: ws2 :: wss))
      with (ws ++ List.concat (ws2 :: wss))%list.
    rewrite (join_app ws (List.concat (ws2 :: wss))); [reflexivity|exact Hws|].
    inversion Hwss as [|? ? Hws2 _]; subst.
    cbn [List.concat]. destruct ws2; [congruence | discriminate].
Qed.

Lemma split_pieces (wss : list (list string)) :
  Forall (fun ws => ws <> []) wss ->
  Forall (Forall word) wss ->
  split (join " " (map (join " ") wss)) = Some (List.concat wss).
Proof.
  intros Hne Hw. rewrite (join_flatten wss Hne). apply split_join_words.
  apply Forall_concat, Hw.
Qed.

(** ** The command of a file *)

Lemma uint_chars_safe (d : uint) :
  forallb_str safe (NilEmpty.string_of_uint d) = true.
Proof. induction d; simpl; auto. Qed.

Lemma str_of_int_word (z : Z) : word (str_of_int z).
Proof.
  unfold str_of_int, NilZero.string_of_int.
  assert (Hu : forall d, word (NilZero.string_of_uint d)).
  { intros d. split.
    - destruct d; try reflexivity; apply (uint_chars_safe (_ d)).
    - destruct d; discriminate. }
  destruct (Z.to_int z) as [d|d].
  - apply Hu.
  - destruct (Hu d) as [Hs _]. split; [|discriminate].
    cbn [forallb_str]. now rewrite Hs.
Qed.

Lemma word_app (a b : string) : word a -> word b -> word (a ++ b).
Proof.
  intros [Ha Hna] [Hb _]. split.
  - now rewrite forallb_str_app, Ha, Hb.
  - destruct a; [congruence | discriminate].
Qed.

Lemma yapf_words_ok (r : range) :
  format Main.yapf_lines [fst r; snd r] = Some (join " " (yapf_words r))
  /\ yapf_words r <> [] /\ Forall word (yapf_words r).
Proof.
  split; [|split].
  - cbn [format Main.yapf_lines yapf_words join].
    rewrite app_empty_r. reflexivity.
  - discriminate.
  - apply Forall_cons; [split; [reflexivity | discriminate]|].
    apply Forall_cons; [|constructor].
    apply word_app; [apply str_of_int_word|].
    apply (word_app "-"); [split; [reflexivity | discriminate]|].
    apply str_of_int_word.
Qed.

Lemma clang_format_words_ok (r : range) :
  format Main.clang_format_lines [fst r; snd r]
  = Some (join " " (clang_format_words r))
  /\ clang_format_words r <> [] /\ Forall word (clang_format_words r).
Proof.
  split; [|split].
  - cbn [format Main.clang_format_lines clang_format_words join].
    rewrite app_empty_r. reflexivity.
  - discriminate.
  - apply Forall_cons; [|constructor].
    apply (word_app "-lines="); [split; [reflexivity | discriminate]|].
    apply word_app; [apply str_of_int_word|].
    apply (word_app ":"); [split; [reflexivity | discriminate]|].
    apply str_of_int_word.
Qed.

Lemma map_format_words (tpl : list piece) (words_of : range -> list string)
    (lines : list range) :
  (forall r, format tpl [fst r; snd r] = Some (join " " (words_of r))) ->
  CodeFormatter.map_format tpl (map fst lines) (map snd lines)
  = Some (map (fun r => join " " (words_of r)) lines).
Proof.
  intros Hf. induction lines as [|r lines IH]; [reflexivity|].
  cbn [map CodeFormatter.map_format]. now rewrite Hf, IH.
Qed.

Lemma concat_singletons {A : Type} (l : list A) :
  List.concat (map (fun x => [x]) l) = l.
Proof. induction l as [|x l IH]; [reflexivity|]. simpl. now rewrite IH. Qed.

(** With pieces that are words, and range arguments that are words joined
    by blanks, the command is the list of all these words. *)
Lemma command_words (self : CodeFormatter.t) (words_of : range -> list string)
    (f : string) (lines : list range) (inplace : bool)
    (options : option (list string)) :
  (forall r, format (CodeFormatter.line_format self) [fst r; snd r]
             = Some (join " " (words_of r))
             /\ words_of r <> [] /\ Forall word (words_of r)) ->
  lines <> [] ->
  word (CodeFormatter.binary self) ->
  word f ->
  Forall word (forwarded options) ->
  CodeFormatter.command self f lines inplace options
  = Ok ([CodeFormatter.binary self]
          ++ (if inplace then ["-i"] else [])
          ++ forwarded options
          ++ List.concat (map words_of lines)
          ++ [f])%list.
Proof.
  intros Hw Hlines Hbin Hf Hopts. unfold CodeFormatter.command.
  destruct lines as [|r0 lines0] eqn:El; [congruence|]. rewrite <- El.
  assert (Hz : CodeFormatter.unzip_lines lines = Some (map fst lines, map snd lines))
    by now rewrite El.
  rewrite Hz, (map_format_words _ words_of lines (fun r => proj1 (Hw r))).
  set (wss := ([[CodeFormatter.binary self]]
                 ++ (if inplace then [["-i"]] else [])
                 ++ map (fun o => [o]) (forwarded options)
                 ++ map words_of lines
                 ++ [[f]])%list).
  assert (Hp : CodeFormatter.pieces self f
                 (map (fun r => join " " (words_of r)) lines) inplace options
               = map (join " ") wss).
  { unfold CodeFormatter.pieces, wss, forwarded.
    rewrite !map_app, !map_map. cbn [map join].
    rewrite map_id. now destruct inplace. }
  assert (Hc : List.concat wss
               = ([CodeFormatter.binary self]
                    ++ (if inplace then ["-i"] else [])
                    ++ forwarded options
                    ++ List.concat (map words_of lines)
                    ++ [f])%list).
  { unfold wss. rewrite !concat_app, concat_singletons.
    destruct inplace; reflexivity. }
  rewrite Hp, split_pieces, Hc; [reflexivity| |].
  - unfold wss. repeat (apply Forall_app; split).
    + repeat constructor; discriminate.
    + destruct inplace; repeat constructor; discriminate.
    + apply Forall_map, Forall_forall. intros; discriminate.
    + apply Forall_map, Forall_forall. intros r _. apply (Hw r).
    + repeat constructor; discriminate.
  - assert (Hone : forall x, word x -> Forall word [x])
      by (intros x Hx; apply Forall_cons; [exact Hx | apply Forall_nil]).
    unfold wss. repeat (apply Forall_app; split).
    + apply Forall_cons; [apply Hone, Hbin | apply Forall_nil].
    + destruct inplace; [|apply Forall_nil].
      apply Forall_cons; [|apply Forall_nil].
      apply Hone. split; [reflexivity | discriminate].
    + apply Forall_map. eapply Forall_impl; [|exact Hopts].
      intros o Ho. apply Hone, Ho.
    + apply Forall_map, Forall_forall. intros r _. apply (Hw r).
    + apply Forall_cons; [apply Hone, Hf | apply Forall_nil].
Qed.

Lemma select_formatter_words (a : Main.args) (self : CodeFormatter.t)
    (exts : list string) :
  Main.select_formatter a = Some (self, exts) ->
  word (CodeFormatter.binary self)
  /\ forall r, format (CodeFormatter.line_format self) [fst r; snd r]
               = Some (join " " (range_words self r))
               /\ range_words self r <> []
               /\ Forall word (range_words self r).
Proof.
  unfold Main.select_formatter.
  destruct (String.eqb (Main.FORMATTER a) "clang-format");
    [|destruct (String.eqb (Main.FORMATTER a) "yapf");
      [|destruct (String.eqb (Main.FORMATTER a) "yapf3"); [|discriminate]]];
    intros [= <- <-]; (split; [split; [reflexivity | discriminate]|]); intros r.
  - apply clang_format_words_ok.
  - apply yapf_words_ok.
  - apply yapf_words_ok.
Qed.

(** C9, as the code has it.  The argument vector of a file is what
    [shlex.split] makes of the pieces [binary], [-i] if asked for, the
    forwarded options, the rendered ranges and the filename, joined by
    single blanks.  When the filename and the options are non-empty and hold
    no white space, no quote and no backslash, this vector is the list of
    the pieces, each rendered range standing for its words (two for
    ['--lines 10-12'], one for ['-lines=10:12']).  And an option or a
    filename that holds a blank is passed as two arguments. *)
Theorem C9_command_is_split_of_joined_pieces :
  (forall (self : CodeFormatter.t) (f : string) (lines : list range)
          (inplace : bool) (options : option (list string))
          (argv : list string),
      CodeFormatter.command self f lines inplace options = Ok argv ->
      exists line_args,
        CodeFormatter.map_format (CodeFormatter.line_format self)
          (map fst lines) (map snd lines) = Some line_args
        /\ split (join " " (CodeFormatter.pieces self f line_args inplace options))
           = Some argv)
  /\ (forall (a : Main.args) (self : CodeFormatter.t) (exts : list string)
             (f : string) (lines : list range),
        Main.select_formatter a = Some (self, exts) ->
        lines <> [] ->
        word f ->
        Forall word (forwarded (Main.options a)) ->
        CodeFormatter.command self f lines (Main.i a) (Main.options a)
        = Ok ([CodeFormatter.binary self]
                ++ (if Main.i a then ["-i"] else [])
                ++ forwarded (Main.options a)
                ++ List.concat (map (range_words self) lines)
                ++ [f])%list)
  /\ CodeFormatter.command Demo.yapf "x.py" [(1, 1)] false
       (Some ["--style={a: b}"])
     = Ok ["yapf"; "--style={a:"; "b}"; "--lines"; "1-1"; "x.py"]
  /\ CodeFormatter.command Demo.yapf "my file.py" [(1, 1)] false None
     = Ok ["yapf"; "--lines"; "1-1"; "my"; "file.py"].
Proof.
  split; [|split; [|split]].
  - intros self f lines inplace options argv. unfold CodeFormatter.command.
    destruct lines as [|r0 lines0] eqn:El; [discriminate|]. rewrite <- El.
    assert (Hz : CodeFormatter.unzip_lines lines
                 = Some (map fst lines, map snd lines)) by now rewrite El.
    rewrite Hz.
    destruct (CodeFormatter.map_format _ _ _) as [line_args|]; [|discriminate].
    destruct (split _) as [argv'|] eqn:Es; [|discriminate].
    intros [= <-]. now exists line_args.
  - intros a self exts f lines Hsel Hlines Hf Hopts.
    destruct (select_formatter_words a self exts Hsel) as [Hbin Hw].
    now apply command_words.
  - reflexivity.
  - reflexivity.
Qed.

(** C9 on the command of the end-to-end scenario. *)
Lemma C9_command_is_split_of_joined_pieces_witness :
  CodeFormatter.command Demo.yapf "pkg/x.py" [(10, 12)] false None
  = Ok ["yapf"; "--lines"; "10-12"; "pkg/x.py"].
Proof.
  refine (proj1 (proj2 C9_command_is_split_of_joined_pieces)
            (Demo.yapf_args 1 false) Demo.yapf Main.yapf_files "pkg/x.py"
            [(10, 12)] _ _ _ _).
  - reflexivity.
  - discriminate.
  - split; [reflexivity | discriminate].
  - constructor.
Defined.

(** C9 as stated fails.  An empty option and an option with a backslash
    hold neither white space nor a quote, and the command is not the list
    of the pieces: the empty piece is gone, and [a\b] has become [ab]. *)
Lemma C9_counterexample :
  CodeFormatter.pieces Demo.yapf "x.py" ["--lines 1-1"] false (Some [""])
  = ["yapf"; ""; "--lines 1-1"; "x.py"]
  /\ CodeFormatter.command Demo.yapf "x.py" [(1, 1)] false (Some [""])
     = Ok ["yapf"; "--lines"; "1-1"; "x.py"]
  /\ CodeFormatter.command Demo.yapf "x.py" [(1, 1)] false (Some ["a\b"])
     = Ok ["yapf"; "ab"; "--lines"; "1-1"; "x.py"].
Proof. repeat split; reflexivity. Qed.


Example regex_examples :
  Regex.search_header 1 ("+++ b/pkg/x.py" ++ NL) = Some "pkg/x.py"
  /\ Regex.search_header 3 ("+++ b/pkg/x.py" ++ NL) = None
  /\ Regex.search_hunk ("@@ -10,0 +10,3 @@" ++ NL) = Some ("10", Some "3")
  /\ Regex.search_hunk ("@@ -1,2 +3,4 @@ i+5" ++ NL) = Some ("5", None)
  /\ Regex.search_hunk ("@@ -1,2 +3," ++ NL) = Some ("3", None)
  /\ Regex.match_supported Main.clang_format_files "a/B.C++" = true
  /\ Regex.match_supported Main.yapf_files ("x.py" ++ NL) = true
  /\ Regex.match_supported Main.yapf_files "x.pyc" = false.
Proof. repeat split; reflexivity. Qed.

(** ** The matchers of [Re] are the patterns of [main] *)

Section Backtracking.
Import Regex.

Lemma star_ext {R : Type} (f : ascii -> bool) (s : string)
    (k k' : string -> option R) :
  (forall t, k t = k' t) -> star f s k = star f s k'.
Proof.
  intros Hk. induction s as [|c s IH]; simpl; [apply Hk|].
  now rewrite IH, Hk.
Qed.

Lemma lazy_star_ext {R : Type} (f : ascii -> bool) (s : string)
    (k k' : string -> option R) :
  (forall t, k t = k' t) -> lazy_star f s k = lazy_star f s k'.
Proof.
  intros Hk. induction s as [|c s IH]; simpl; rewrite Hk; [reflexivity|].
  now rewrite IH.
Qed.

(** The result only depends on what the continuation returns. *)
Lemma run_ext {R : Type} (ci : bool) (subject : string) (r : regex) :
  forall (s : string) (caps : captures)
         (k k' : string -> captures -> option R),
    (forall t c, k t c = k' t c) ->
    run ci subject r s caps k = run ci subject r s caps k'.
Proof.
  induction r as [|c|f|a IHa b IHb|a IHa b IHb|f|f|a IHa|n a IHa| |];
    intros s caps k k' Hk; cbn [run].
  - apply Hk.
  - destruct s as [|x s]; [reflexivity|]. now rewrite Hk.
  - destruct s as [|x s]; [reflexivity|]. now rewrite Hk.
  - apply IHa. intros t c. now apply IHb.
  - now rewrite (IHa s caps k k' Hk), (IHb s caps k k' Hk).
  - apply star_ext. intros t. apply Hk.
  - apply lazy_star_ext. intros t. apply Hk.
  - now rewrite (IHa s caps k k' Hk), Hk.
  - apply IHa. intros t c. apply Hk.
  - now rewrite Hk.
  - destruct s as [|x [|y s]]; now rewrite ?Hk.
Qed.

Lemma star_post {R B : Type} (g : R -> B) (f : ascii -> bool) (s : string)
    (k : string -> option R) :
  option_map g (star f s k) = star f s (fun t => option_map g (k t)).
Proof.
  induction s as [|c s IH]; simpl; [reflexivity|].
  destruct (f c); [|reflexivity].
  rewrite <- IH. now destruct (star f s k).
Qed.

Lemma lazy_star_post {R B : Type} (g : R -> B) (f : ascii -> bool)
    (s : string) (k : string -> option R) :
  option_map g (lazy_star f s k) = lazy_star f s (fun t => option_map g (k t)).
Proof.
  induction s as [|c s IH]; simpl.
  - now destruct (k EmptyString).
  - destruct (k (String c s)); [reflexivity|]. simpl.
    destruct (f c); [exact IH | reflexivity].
Qed.

(** Taking something from the first match is matching with a continuation
    that takes it. *)
Lemma run_post {R B : Type} (g : R -> B) (ci : bool) (subject : string)
    (r : regex) :
  forall (s : string) (caps : captures) (k : string -> captures -> option R),
    option_map g (run ci subject r s caps k)
    = run ci subject r s caps (fun t c => option_map g (k t c)).
Proof.
  induction r as [|c|f|a IHa b IHb|a IHa b IHb|f|f|a IHa|n a IHa| |];
    intros s caps k; cbn [run].
  - reflexivity.
  - destruct s as [|x s]; [reflexivity|].
    now destruct (if ci then ci_eqb c x else Ascii.eqb c x).
  - destruct s as [|x s]; [reflexivity|]. now destruct (f x).
  - rewrite IHa. apply run_ext. intros t c. apply IHb.
  - rewrite <- IHa, <- IHb. now destruct (run ci subject a s caps k).
  - apply star_post.
  - apply lazy_star_post.
  - rewrite <- IHa. now destruct (run ci subject a s caps k).
  - rewrite IHa. reflexivity.
  - now destruct (Nat.eqb _ _).
  - destruct s as [|x [|y s]]; try reflexivity. now destruct (is_nl x).
Qed.

(** A pattern that begins with [^] is only tried at the start. *)
Lemma search_from_bol (ci : bool) (r : regex) (subject s : string) :
  (String.length s < String.length subject)%nat ->
  search_from ci (Seq Bol r) subject s = None.
Proof.
  induction s as [|c s IH]; intros Hlt; cbn [search_from].
  - unfold match_at. cbn [run].
    destruct (Nat.eqb_spec (String.length "") (String.length subject)) as [E|_];
      [simpl in *; lia | reflexivity].
  - unfold match_at at 1. cbn [run].
    destruct (Nat.eqb_spec (String.length (String c s)) (String.length subject))
      as [E|_]; [lia|].
    apply IH. simpl in Hlt. lia.
Qed.

Lemma re_search_bol (ci : bool) (r : regex) (subject : string) :
  re_search ci (Seq Bol r) subject
  = run ci subject r subject [] (fun _ caps => Some caps).
Proof.
  unfold re_search. destruct subject as [|c s]; cbn [search_from];
    unfold match_at at 1; cbn [run]; rewrite Nat.eqb_refl.
  - now destruct (run ci "" r "" [] _).
  - destruct (run ci (String c s) r (String c s) [] _); [reflexivity|].
    apply search_from_bol. simpl. lia.
Qed.

Lemma re_match_bol (ci : bool) (r : regex) (subject : string) :
  re_match ci (Seq Bol r) subject
  = run ci subject r subject [] (fun _ caps => Some caps).
Proof.
  unfold re_match, match_at. cbn [run]. now rewrite Nat.eqb_refl.
Qed.

Lemma run_lit {R : Type} (subject l : string) :
  forall (s : string) (caps : captures) (k : string -> captures -> option R),
    run false subject (lit l) s caps k
    = match strip_prefix l s with
      | Some t => k t caps
      | None => None
      end.
Proof.
  induction l as [|a l IH]; intros s caps k; cbn [lit run strip_prefix].
  - reflexivity.
  - destruct s as [|b s]; [reflexivity|].
    destruct (Ascii.eqb a b); [apply IH | reflexivity].
Qed.

Lemma run_lit_ci {R : Type} (subject l : string) :
  forall (s : string) (caps : captures) (k : string -> captures -> option R),
    run true subject (lit l) s caps k
    = match strip_prefix_ci l s with
      | Some t => k t caps
      | None => None
      end.
Proof.
  induction l as [|a l IH]; intros s caps k; cbn [lit run strip_prefix_ci].
  - reflexivity.
  - destruct s as [|b s]; [reflexivity|].
    destruct (ci_eqb a b); [apply IH | reflexivity].
Qed.

(** A greedy star gives nothing back to a continuation that never fails. *)
Lemma star_total {R : Type} (f : ascii -> bool) (s : string)
    (k : string -> option R) :
  (forall t, k t <> None) -> star f s k = k (snd (span f s)).
Proof.
  intros Hk. induction s as [|c s IH]; simpl; [reflexivity|].
  destruct (f c); [|reflexivity].
  rewrite IH. destruct (span f s) as [a b]; simpl.
  destruct (k b) eqn:E; [reflexivity | now apply Hk in E].
Qed.

Lemma span_app (f : ascii -> bool) (s : string) :
  fst (span f s) ++ snd (span f s) = s.
Proof.
  induction s as [|c s IH]; simpl; [reflexivity|].
  destruct (f c); [|reflexivity].
  destruct (span f s) as [a b]; simpl in *. now rewrite IH.
Qed.

Lemma length_app_str (a b : string) :
  String.length (a ++ b) = (String.length a + String.length b)%nat.
Proof. induction a as [|c a IH]; simpl; [reflexivity | now rewrite IH]. Qed.

Lemma substring_whole_prefix (a b : string) :
  substring 0 (String.length a) (a ++ b) = a.
Proof.
  induction a as [|c a IH]; simpl.
  - now destruct b.
  - now rewrite IH.
Qed.

Lemma consumed_app (a b : string) : consumed (a ++ b) b = a.
Proof.
  unfold consumed. rewrite length_app_str.
  replace (String.length a + String.length b - String.length b)%nat
    with (String.length a) by lia.
  apply substring_whole_prefix.
Qed.

Lemma consumed_span (f : ascii -> bool) (s : string) :
  consumed s (snd (span f s)) = fst (span f s).
Proof.
  rewrite <- (span_app f s) at 1. apply consumed_app.
Qed.

End Backtracking.

Section PatternsOfMain.
Import Regex.

(** *** The file header pattern *)

Lemma lazy_slash_ext {A : Type} (k k' : string -> option A) (s : string) :
  (forall t, k t = k' t) -> lazy_slash k s = lazy_slash k' s.
Proof.
  intros Hk. induction s as [|c s IH]; simpl; [reflexivity|].
  now rewrite Hk, IH.
Qed.

Lemma lazy_slash_post {A B : Type} (h : A -> B) (k : string -> option A)
    (s : string) :
  option_map h (lazy_slash k s) = lazy_slash (fun t => option_map h (k t)) s.
Proof.
  induction s as [|c s IH]; simpl; [reflexivity|].
  destruct (Ascii.eqb c "/").
  - destruct (k s); [reflexivity|]. simpl. now destruct (dot c).
  - now destruct (dot c).
Qed.

Lemma repeat_slash_post {A B : Type} (h : A -> B) (p : nat)
    (k : string -> option A) (s : string) :
  option_map h (repeat_slash p k s)
  = repeat_slash p (fun t => option_map h (k t)) s.
Proof.
  revert s. induction p as [|p IH]; intros s; cbn [repeat_slash];
    [reflexivity|].
  rewrite lazy_slash_post. apply lazy_slash_ext. exact IH.
Qed.

(** The lazy star of the engine followed by ['/'] is [lazy_slash]. *)
Lemma lazy_star_slash {R : Type} (k : string -> option R) (s : string) :
  lazy_star dot s
    (fun t => match t with
              | String x t' => if Ascii.eqb "/" x then k t' else None
              | EmptyString => None
              end)
  = lazy_slash k s.
Proof.
  induction s as [|c s IH]; [reflexivity|].
  cbn [lazy_star lazy_slash]. rewrite (Ascii.eqb_sym "/" c).
  destruct (if Ascii.eqb c "/" then k s else None); [reflexivity|].
  now rewrite IH.
Qed.

Lemma run_times_slash {R : Type} (subject : string) (p : nat)
    (kr : string -> option R) :
  forall (s : string) (caps : captures) (K : string -> captures -> option R),
    (forall t c, K t c = kr t) ->
    run false subject (times p (Group 1 (Seq (LazyStar dot) (Chr "/")))) s caps K
    = repeat_slash p kr s.
Proof.
  induction p as [|p IH]; intros s caps K HK; cbn [times repeat_slash].
  - cbn [run]. apply HK.
  - cbn [run]. rewrite <- lazy_star_slash. apply lazy_star_ext.
    intros [|x t]; [reflexivity|].
    destruct (Ascii.eqb "/" x); [|reflexivity].
    now apply IH.
Qed.

(** X21.  The pattern of the file header, run by the backtracking matcher
    as [re.search] does, gives as its second group the filename that the
    loop takes from the line, and fails on the same lines, for every [-p]
    and every line. *)
Theorem search_header_is_header_match (p : nat) (line : string) :
  search_header p line = header_match p line.
Proof.
  unfold search_header, header_re. rewrite re_search_bol.
  set (o := run _ _ _ _ _ _).
  replace (match o with Some caps => group 2 caps | None => None end)
    with (flatten (option_map (group 2) o)) by now destruct o.
  subst o. rewrite run_post. cbn [run]. rewrite run_lit. unfold header_match.
  destruct (strip_prefix "+++ " line) as [rest|]; [|reflexivity].
  rewrite (run_times_slash line p (fun t => option_map Some (rest_name t))).
  - rewrite <- repeat_slash_post. now destruct (repeat_slash p rest_name rest).
  - intros t c. cbn [run].
    rewrite star_total by discriminate.
    cbn [option_map group Nat.eqb]. now rewrite consumed_span.
Qed.

(** *** The hunk pattern *)

Lemma run_seq {R : Type} (ci : bool) (subject : string) (a b : regex)
    (s : string) (caps : captures) (k : string -> captures -> option R) :
  run ci subject (Seq a b) s caps k
  = run ci subject a s caps (fun s' caps' => run ci subject b s' caps' k).
Proof. reflexivity. Qed.

Lemma run_group {R : Type} (ci : bool) (subject : string) (n : nat)
    (a : regex) (s : string) (caps : captures)
    (k : string -> captures -> option R) :
  run ci subject (Group n a) s caps k
  = run ci subject a s caps
      (fun s' caps' => k s' ((n, consumed s s') :: caps')).
Proof. reflexivity. Qed.

(** [\d+] in a group, before a continuation that never fails. *)
Lemma run_digits_group {R : Type} (subject : string) (n : nat) (s : string)
    (caps : captures) (k : string -> captures -> option R) :
  (forall t c, k t c <> None) ->
  run false subject (Group n (plus is_digit)) s caps k
  = let (d, s') := span is_digit s in
    if is_empty d then None else k s' ((n, d) :: caps).
Proof.
  intros Hk. rewrite run_group. unfold plus. rewrite run_seq.
  destruct s as [|x s1]; [reflexivity|].
  cbn [run span]. destruct (is_digit x) eqn:Ex; [|reflexivity].
  rewrite star_total by (intros t; apply Hk).
  assert (Hd : consumed (String x s1) (snd (span is_digit s1))
               = String x (fst (span is_digit s1))).
  { rewrite <- (span_app is_digit s1) at 1.
    apply (consumed_app (String x (fst (span is_digit s1)))). }
  rewrite Hd. now destruct (span is_digit s1).
Qed.

(** The optional count. *)
Lemma run_count_group (subject t d : string) :
  run false subject (Opt (Group 2 (Seq (Chr ",") (Group 3 (plus is_digit)))))
    t [(1%nat, d)] (fun _ c => Some (groups_1_3 c))
  = Some (Some d, count_group t).
Proof.
  unfold plus. cbn [run].
  destruct t as [|y t1]; [reflexivity|].
  cbn [count_group]. rewrite (Ascii.eqb_sym "," y).
  destruct (Ascii.eqb y ","); [|reflexivity].
  destruct t1 as [|z t2]; [reflexivity|].
  cbn [span]. destruct (is_digit z) eqn:Ez; [|reflexivity].
  rewrite star_total by discriminate.
  assert (Hd : consumed (String z t2) (snd (span is_digit t2))
               = String z (fst (span is_digit t2))).
  { rewrite <- (span_app is_digit t2) at 1.
    apply (consumed_app (String z (fst (span is_digit t2)))). }
  rewrite Hd. now destruct (span is_digit t2).
Qed.

Lemma run_plus_field (subject s : string) :
  run false subject
    (Seq (Chr "+")
       (Seq (Group 1 (plus is_digit))
          (Opt (Group 2 (Seq (Chr ",") (Group 3 (plus is_digit)))))))
    s [] (fun _ c => Some (groups_1_3 c))
  = option_map some_first (plus_field s).
Proof.
  rewrite run_seq. destruct s as [|c r]; [reflexivity|].
  cbn [run plus_field]. rewrite (Ascii.eqb_sym "+" c).
  destruct (Ascii.eqb c "+"); [|reflexivity].
  change (run false subject (plus is_digit) r [] ?k)
    with (run false subject (Group 1 (plus is_digit)) r []
            (fun s' caps' =>
               run false subject
                 (Opt (Group 2 (Seq (Chr ",") (Group 3 (plus is_digit)))))
                 s' caps' (fun _ c => Some (groups_1_3 c)))).
  rewrite run_digits_group.
  - destruct (span is_digit r) as [d r'].
    destruct (is_empty d); [reflexivity|].
    now rewrite run_count_group.
  - intros t c0. cbn [run].
    now destruct (match t with String _ _ => _ | EmptyString => _ end).
Qed.

Lemma star_dot_plus_field (s : string)
    (F : string -> option (option string * option string)) :
  (forall t, F t = option_map some_first (plus_field t)) ->
  star dot s F = option_map some_first (star_plus_field s).
Proof.
  intros HF. induction s as [|c s IH]; cbn [star star_plus_field].
  - now rewrite HF.
  - destruct (dot c).
    + rewrite IH. destruct (star_plus_field s); [reflexivity|]. apply HF.
    + apply HF.
Qed.

(** X22.  The pattern of the hunk header, run by the backtracking matcher
    as [re.search] does, gives as its groups 1 and 3 the start and the count
    that the loop takes from the line, and fails on the same lines. *)
Theorem search_hunk_is_hunk_match (line : string) :
  search_hunk line = hunk_match line.
Proof.
  unfold search_hunk, hunk_re. rewrite re_search_bol.
  set (o := run _ _ _ _ _ _).
  replace (match o with
           | Some caps =>
               match group 1 caps with
               | Some g1 => Some (g1, group 3 caps)
               | None => None
               end
           | None => None
           end)
    with (match option_map groups_1_3 o with
          | Some (Some g1, g3) => Some (g1, g3)
          | _ => None
          end)
    by (destruct o as [caps|]; [|reflexivity]; unfold groups_1_3; simpl;
        now destruct (group 1 caps)).
  subst o. rewrite run_post. cbn [run lit]. unfold hunk_match.
  destruct line as [|a [|b rest]]; try reflexivity;
    cbn [strip_prefix]; destruct (Ascii.eqb "@" a); try reflexivity.
  destruct (Ascii.eqb "@" b); [|reflexivity].
  rewrite (star_dot_plus_field rest).
  - now destruct (star_plus_field rest) as [[g1 g3]|].
  - intros t. apply (run_plus_field (String a (String b rest)) t).
Qed.

(** *** The extension pattern *)

Lemma ci_eqb_dot (x : ascii) : ci_eqb "." x = Ascii.eqb x ".".
Proof. destruct x as [[] [] [] [] [] [] [] []]; reflexivity. Qed.

Lemma run_alts (subject : string) (exts : list string) (s : string)
    (caps : captures) (k : string -> captures -> option unit)
    (kb : string -> bool) :
  (forall t c, k t c = to_opt (kb t)) ->
  run true subject (alts exts) s caps k
  = to_opt (existsb (fun e => match strip_prefix_ci e s with
                              | Some r => kb r
                              | None => false
                              end) exts).
Proof.
  intros Hk. induction exts as [|e exts IH].
  - cbn [alts run existsb]. now destruct s.
  - destruct exts as [|e2 exts].
    + cbn [alts existsb]. rewrite run_lit_ci, orb_false_r.
      destruct (strip_prefix_ci e s); [apply Hk | reflexivity].
    + change (alts (e :: e2 :: exts)) with (Alt (lit e) (alts (e2 :: exts))).
      cbn [run]. rewrite run_lit_ci, IH.
      change (existsb ?g (e :: e2 :: exts))
        with (g e || existsb g (e2 :: exts)).
      cbv beta.
      destruct (strip_prefix_ci e s) as [r|]; [|reflexivity].
      rewrite Hk. now destruct (kb r).
Qed.

Lemma run_extension_here (subject : string) (exts : list string) (t : string) :
  run true subject (Seq (Chr ".") (Seq (Group 1 (alts exts)) Eol)) t []
    (fun _ _ => Some tt)
  = match t with
    | String x t' => to_opt (Ascii.eqb x "." && existsb (alt_end t') exts)
    | EmptyString => None
    end.
Proof.
  destruct t as [|x t']; [reflexivity|].
  rewrite run_seq. cbn [run]. rewrite ci_eqb_dot.
  destruct (Ascii.eqb x "."); [|reflexivity].
  cbn [andb].
  rewrite (run_alts subject exts t' [] _ at_end).
  - reflexivity.
  - intros [|c [|c' r]] caps; reflexivity.
Qed.

Lemma star_dot_extension (exts : list string) (s : string)
    (F : string -> option unit) :
  (forall t, F t = match t with
                   | String x t' =>
                       to_opt (Ascii.eqb x "." && existsb (alt_end t') exts)
                   | EmptyString => None
                   end) ->
  star dot s F = to_opt (ext_tail exts s).
Proof.
  intros HF. induction s as [|c s IH]; cbn [star ext_tail].
  - now rewrite HF.
  - rewrite HF, IH.
    destruct (dot c), (ext_tail exts s),
      (Ascii.eqb c "." && existsb (alt_end s) exts); reflexivity.
Qed.

(** X23.  The pattern of the supported files, anchored at both ends and
    matched without regard to case as [re.match] does, accepts the filenames
    that the filter of the loop lets through, for every list of
    extensions. *)
Theorem match_supported_is_supported_match (exts : list string)
    (filename : string) :
  match_supported exts filename = supported_match exts filename.
Proof.
  unfold match_supported, supported_re, supported_match.
  rewrite re_match_bol.
  set (o := run _ _ _ _ _ _).
  assert (Ho : option_map (fun _ : captures => tt) o
               = to_opt (ext_tail exts filename)).
  { subst o. rewrite run_post, run_seq. cbn [run].
    apply star_dot_extension. intros t.
    apply (run_extension_here filename exts t). }
  destruct o, (ext_tail exts filename); simpl in Ho; congruence.
Qed.

End PatternsOfMain.


(** * Further properties of the script *)

(** ** File headers *)

Lemma lazy_slash_first {A : Type} (k : string -> option A) (seg t : string) :
  forallb_str segment_char seg = true ->
  lazy_slash k (seg ++ "/" ++ t)
  = match k t with
    | Some r => Some r
    | None => lazy_slash k t
    end.
Proof.
  intros Hseg. induction seg as [|c seg IH].
  - reflexivity.
  - cbn [forallb_str] in Hseg. apply andb_true_iff in Hseg as [Hc Hseg].
    unfold segment_char in Hc. apply andb_true_iff in Hc as [Hd Hs].
    apply negb_true_iff in Hs.
    cbn [String.append lazy_slash]. rewrite Hs, Hd. now apply IH.
Qed.

Lemma repeat_slash_segments {A : Type} (k : string -> option A)
    (segs : list string) (rest : string) (r : A) :
  Forall (fun seg => forallb_str segment_char seg = true) segs ->
  k rest = Some r ->
  repeat_slash (List.length segs) k (path_of segs rest) = Some r.
Proof.
  intros Hall Hk. induction Hall as [|seg segs Hseg _ IH]; [exact Hk|].
  cbn [List.length repeat_slash path_of fold_right].
  rewrite (lazy_slash_first _ seg _ Hseg).
  fold (path_of segs rest). now rewrite IH.
Qed.

(** X2.  With [-p] equal to the number of leading segments, the filename
    taken from a header is what follows these segments, up to the first
    white space: exactly that many segments are stripped, however many
    slashes follow. *)
Theorem X2_header_strips_leading_segments (segs : list string) (rest : string) :
  Forall (fun seg => forallb_str segment_char seg = true) segs ->
  header_match (List.length segs) ("+++ " ++ path_of segs rest)
  = Some (fst (span non_space rest)).
Proof.
  intros Hall.
  change (header_match (List.length segs) ("+++ " ++ path_of segs rest))
    with (repeat_slash (List.length segs) rest_name (path_of segs rest)).
  now apply repeat_slash_segments.
Qed.

(** X2 on ['+++ a/b/src/foo.py'] with [-p 2]. *)
Lemma X2_header_strips_leading_segments_witness :
  header_match 2 ("+++ " ++ path_of ["a"; "b"] ("src/foo.py" ++ NL))
  = Some "src/foo.py".
Proof.
  refine (X2_header_strips_leading_segments ["a"; "b"] ("src/foo.py" ++ NL) _).
  repeat constructor.
Defined.

Lemma lazy_slash_some_line {A : Type} (k : string -> option A) (s : string)
    (r : A) :
  lazy_slash k s = Some r ->
  exists t, k t = Some r /\ (S (line_slashes t) <= line_slashes s)%nat.
Proof.
  induction s as [|c s IH]; [discriminate|].
  cbn [lazy_slash line_slashes].
  destruct (Ascii.eqb c "/") eqn:Ec.
  - apply Ascii.eqb_eq in Ec. subst c. change (is_nl "/") with false. cbv iota.
    destruct (k s) as [r'|] eqn:Ek.
    + intros [= <-]. exists s. split; [exact Ek | lia].
    + change (dot "/") with true. cbv iota. intros Hr.
      destruct (IH Hr) as (t & Ht & Hle). exists t. split; [exact Ht | lia].
  - unfold dot. destruct (is_nl c); [discriminate|]. cbn [negb]. intros Hr.
    destruct (IH Hr) as (t & Ht & Hle). exists t. split; [exact Ht | lia].
Qed.

Lemma repeat_slash_some_line {A : Type} (p : nat) (k : string -> option A)
    (s : string) (r : A) :
  repeat_slash p k s = Some r -> (p <= line_slashes s)%nat.
Proof.
  revert s. induction p as [|p IH]; intros s; cbn [repeat_slash]; [lia|].
  intros Hr. apply lazy_slash_some_line in Hr as (t & Ht & Hle).
  apply IH in Ht. lia.
Qed.

Lemma lazy_slash_enough {A : Type} (k : string -> option A) (p : nat) :
  (forall t, (p <= line_slashes t)%nat -> k t <> None) ->
  forall s, (S p <= line_slashes s)%nat -> lazy_slash k s <> None.
Proof.
  intros Hk s. induction s as [|c s IH]; cbn [line_slashes lazy_slash];
    [lia|].
  unfold dot. destruct (is_nl c); [lia|]. cbn [negb].
  destruct (Ascii.eqb c "/"); intros Hle.
  - destruct (k s) eqn:Ek; [discriminate|].
    exfalso. apply (Hk s); [lia | exact Ek].
  - apply IH. lia.
Qed.

Lemma repeat_slash_enough {A : Type} (k : string -> option A) (p : nat) :
  (forall t, k t <> None) ->
  forall s, (p <= line_slashes s)%nat -> repeat_slash p k s <> None.
Proof.
  intros Hk. induction p as [|p IH]; intros s Hle; cbn [repeat_slash].
  - apply Hk.
  - now apply (lazy_slash_enough _ p IH).
Qed.

(** X1.  A line is taken for a file header exactly when it begins with
    ['+++ '] and at least [p] slashes follow before the end of the line. *)
Theorem X1_header_matches_iff_enough_slashes (p : nat) (line : string) :
  header_match p line <> None
  <-> exists rest, line = "+++ " ++ rest /\ (p <= line_slashes rest)%nat.
Proof.
  unfold header_match. split.
  - destruct (strip_prefix "+++ " line) as [rest|] eqn:E; [|congruence].
    apply strip_prefix_some in E. intros Hr. exists rest. split; [exact E|].
    destruct (repeat_slash p rest_name rest) eqn:Er; [|congruence].
    eapply repeat_slash_some_line; eassumption.
  - intros (rest & -> & Hle).
    change (strip_prefix "+++ " ("+++ " ++ rest)) with (Some rest).
    apply repeat_slash_enough; [discriminate | exact Hle].
Qed.

(** ** The extension filter *)

Lemma lower_str_strip (e ext : string) :
  lower_str ext = lower_str e -> strip_prefix_ci e ext = Some EmptyString.
Proof.
  revert ext. induction e as [|a e IH]; intros [|b ext]; simpl;
    try discriminate; [reflexivity|].
  intros [= Hc Hs]. unfold ci_eqb. rewrite Hc, Ascii.eqb_refl. now apply IH.
Qed.

Lemma ext_tail_of_full_match (exts : list string) (stem ext e : string) :
  forallb_str dot stem = true ->
  In e exts ->
  lower_str ext = lower_str e ->
  ext_tail exts (stem ++ "." ++ ext) = true.
Proof.
  intros Hstem Hin Hl. change ("." ++ ext) with (String "." ext).
  induction stem as [|c stem IH].
  - cbn [String.append ext_tail]. apply orb_true_iff. right.
    rewrite Ascii.eqb_refl. cbn [andb].
    apply existsb_exists. exists e. split; [exact Hin|].
    unfold alt_end. now rewrite (lower_str_strip e ext Hl).
  - cbn [forallb_str] in Hstem. apply andb_true_iff in Hstem as [Hc Hstem].
    cbn [String.append ext_tail]. now rewrite Hc, (IH Hstem).
Qed.

Lemma ext_tail_full_match_line (exts : list string) (f : string) :
  forallb_str dot f = true ->
  ext_tail exts f = true -> full_match_ci exts f.
Proof.
  induction f as [|c f IH]; [discriminate|].
  cbn [ext_tail forallb_str]. intros Hns H.
  apply andb_true_iff in Hns as [Hc Hf].
  apply orb_true_iff in H as [H|H].
  - apply andb_true_iff in H as [Hd Ht].
    destruct (IH Hf Ht) as (stem & ext & e & -> & Hs & He & Hl).
    exists (String c stem), ext, e. repeat split; try assumption.
    simpl. now rewrite Hd, Hs.
  - apply andb_true_iff in H as [Hd Hx]. apply Ascii.eqb_eq in Hd. subst c.
    apply existsb_exists in Hx as (e & He & Ha).
    unfold alt_end in Ha.
    destruct (strip_prefix_ci e f) as [r|] eqn:E; [|discriminate].
    apply strip_prefix_ci_some in E as (x & -> & Hx).
    exists EmptyString, x, e. repeat split; try assumption.
    destruct r as [|c [|c' r]]; simpl in Ha; try discriminate.
    + now rewrite app_empty_r.
    + rewrite forallb_str_app in Hf. apply andb_true_iff in Hf as [_ Hf].
      simpl in Hf. unfold dot in Hf. rewrite Ha in Hf. discriminate.
Qed.

(** X3.  For a filename without newline, the filter lets it through exactly
    when it is a stem, a dot and one of the listed extensions in any mix of
    upper and lower case. *)
Theorem X3_supported_iff_listed_extension (exts : list string) (f : string) :
  forallb_str dot f = true ->
  (supported_match exts f = true <-> full_match_ci exts f).
Proof.
  intros Hf. unfold supported_match. split.
  - now apply ext_tail_full_match_line.
  - intros (stem & ext & e & -> & Hs & He & Hl).
    now apply (ext_tail_of_full_match exts stem ext e).
Qed.

(** X3 on [a/b.Cpp] and the list of [clang-format]. *)
Lemma X3_supported_iff_listed_extension_witness :
  supported_match Main.clang_format_files "a/b.Cpp" = true
  <-> full_match_ci Main.clang_format_files "a/b.Cpp".
Proof.
  apply (X3_supported_iff_listed_extension Main.clang_format_files "a/b.Cpp").
  reflexivity.
Defined.

Lemma lower_is_nl (c : ascii) : is_nl (lower c) = is_nl c.
Proof. destruct c as [[] [] [] [] [] [] [] []]; reflexivity. Qed.

Lemma lower_is_dot (c : ascii) : Ascii.eqb (lower c) "." = Ascii.eqb c ".".
Proof. destruct c as [[] [] [] [] [] [] [] []]; reflexivity. Qed.

Lemma lower_idem (c : ascii) : lower (lower c) = lower c.
Proof. destruct c as [[] [] [] [] [] [] [] []]; reflexivity. Qed.

Lemma lower_str_idem (s : string) : lower_str (lower_str s) = lower_str s.
Proof. induction s as [|c s IH]; simpl; [reflexivity|]. now rewrite lower_idem, IH. Qed.

Lemma at_end_lower (s : string) : at_end (lower_str s) = at_end s.
Proof.
  destruct s as [|c [|c' s]]; try reflexivity. simpl. apply lower_is_nl.
Qed.

Lemma strip_prefix_ci_lower (e s : string) :
  strip_prefix_ci e (lower_str s)
  = option_map lower_str (strip_prefix_ci e s).
Proof.
  revert s. induction e as [|a e IH]; intros s; [reflexivity|].
  destruct s as [|b s]; [reflexivity|]. simpl.
  unfold ci_eqb. rewrite lower_idem.
  destruct (Ascii.eqb (lower a) (lower b)); [apply IH | reflexivity].
Qed.

Lemma alt_end_lower (s e : string) : alt_end (lower_str s) e = alt_end s e.
Proof.
  unfold alt_end. rewrite strip_prefix_ci_lower.
  destruct (strip_prefix_ci e s); [apply at_end_lower | reflexivity].
Qed.

Lemma existsb_alt_end_lower (exts : list string) (s : string) :
  existsb (alt_end (lower_str s)) exts = existsb (alt_end s) exts.
Proof.
  induction exts as [|e exts IH]; [reflexivity|].
  cbn [existsb]. now rewrite alt_end_lower, IH.
Qed.

Lemma ext_tail_lower (exts : list string) (s : string) :
  ext_tail exts (lower_str s) = ext_tail exts s.
Proof.
  induction s as [|c s IH]; [reflexivity|].
  cbn [lower_str ext_tail]. unfold dot. rewrite lower_is_nl, lower_is_dot, IH.
  now rewrite existsb_alt_end_lower.
Qed.

(** X4.  The filter ignores case: two filenames that differ only in the case
    of their letters are both let through or both left out. *)
Theorem X4_supported_ignores_case (exts : list string) (f f' : string) :
  lower_str f = lower_str f' ->
  supported_match exts f = supported_match exts f'.
Proof.
  intros Hl. unfold supported_match.
  now rewrite <- (ext_tail_lower exts f), <- (ext_tail_lower exts f'), Hl.
Qed.

(** X4 on [Lib/Main.PY] and [lib/main.py]. *)
Lemma X4_supported_ignores_case_witness :
  supported_match Main.yapf_files "Lib/Main.PY"
  = supported_match Main.yapf_files "lib/main.py".
Proof.
  apply (X4_supported_ignores_case Main.yapf_files "Lib/Main.PY" "lib/main.py").
  reflexivity.
Defined.

(** ** The extraction loop *)

Lemma appends_after_header (p : nat) (exts : list string) (h f : string)
    (rest : list string) (fn : option string) :
  header_match p h = Some f ->
  appends p exts (h :: rest) fn = appends p exts (h :: rest) None.
Proof.
  intros Hh. cbn [appends]. unfold appended, next_filename. now rewrite Hh.
Qed.

(** X5.  Diffs compose.  When the second part of the input begins with a
    line taken for a file header, the ranges recorded for any file are those
    of the first part followed by those of the second part. *)
Theorem X5_extraction_of_joined_diffs (p : nat) (exts : list string)
    (d1 d2 : list string) (h f k : string) :
  header_match p h = Some f ->
  lookup k (extract p exts (d1 ++ h :: d2))
  = match lookup k (extract p exts d1), lookup k (extract p exts (h :: d2)) with
    | None, None => None
    | o1, o2 =>
        Some (match o1 with Some rs => rs | None => [] end
              ++ match o2 with Some rs => rs | None => [] end)%list
    end.
Proof.
  intros Hh. unfold extract at 1. rewrite scan_app, scan_spec.
  cbn [lines_by_file]. rewrite (appends_after_header p exts h f d2 _ Hh).
  fold (extract p exts d1).
  rewrite lookup_record_all, (extract_spec p exts (h :: d2)), lookup_record_all.
  cbn [lookup].
  destruct (lookup k (extract p exts d1)) as [rs1|],
           (ranges_of k (appends p exts (h :: d2) None)) as [|r rs2];
    try reflexivity.
Qed.

(** X5 on two diffs that touch the same file. *)
Lemma X5_extraction_of_joined_diffs_witness :
  lookup "x.py"
    (extract 1 Main.yapf_files
       (["+++ b/x.py" ++ NL; "@@ -1 +1,2 @@" ++ NL]
          ++ ("+++ b/x.py" ++ NL) :: ["@@ -9 +10 @@" ++ NL]))
  = Some ([(1, 2)] ++ [(10, 10)])%list.
Proof.
  refine (X5_extraction_of_joined_diffs 1 Main.yapf_files
            ["+++ b/x.py" ++ NL; "@@ -1 +1,2 @@" ++ NL]
            ["@@ -9 +10 @@" ++ NL] ("+++ b/x.py" ++ NL) "x.py" "x.py" _).
  reflexivity.
Defined.

(** X6.  For a selected file, a hunk header whose [+start,count] field is
    the last ['+<digit>'] of the line records nothing when the value of the
    count is zero, and otherwise the range that begins at the start and
    covers as many lines as the count says; line numbers are never
    negative. *)
Theorem X6_hunk_range_covers_count_lines (p : nat) (exts : list string)
    (pre start count post f : string) :
  forallb_str dot pre = true ->
  digits start ->
  digits count ->
  ends_field (Some count) post ->
  plus_digit_ahead post = false ->
  supported_match exts f = true ->
  appended p exts ("@@" ++ pre ++ field start (Some count) ++ post) (Some f)
  = (if int count =? 0 then None
     else Some (f, (int start, int start + int count - 1)))
  /\ 0 <= int start /\ 0 <= int count.
Proof.
  intros Hpre Hs Hc Hend Hpost Hsup. split.
  - unfold appended, next_filename. rewrite header_match_at_at, Hsup.
    rewrite (hunk_match_last_field pre start (Some count) post
               Hpre Hs Hc Hend Hpost).
    unfold hunk_range. cbn [fst snd]. now destruct (int count =? 0).
  - split; apply int_nonneg; [apply Hs | apply Hc].
Qed.

(** X6 on ['@@ -10,0 +10,3 @@']: three lines from line 10 on. *)
Lemma X6_hunk_range_covers_count_lines_witness :
  appended 1 Main.yapf_files
    ("@@" ++ " -10,0 " ++ field "10" (Some "3") ++ " @@" ++ NL)
    (Some "pkg/x.py")
  = (if int "3" =? 0 then None
     else Some ("pkg/x.py", (int "10", int "10" + int "3" - 1)))
  /\ 0 <= int "10" /\ 0 <= int "3".
Proof.
  apply (X6_hunk_range_covers_count_lines 1 Main.yapf_files " -10,0 " "10" "3"
           (" @@" ++ NL) "pkg/x.py").
  - reflexivity.
  - split; [reflexivity | discriminate].
  - split; [reflexivity | discriminate].
  - split; [reflexivity | discriminate].
  - reflexivity.
  - reflexivity.
Defined.

(** X7.  Recording a range for a file puts it at the end of the list of
    that file and leaves the list of every other file as it was; a file seen
    for the first time comes after all the files already there, and a file
    already there keeps its place. *)
Theorem X7_recording_a_range (k : string) (v : range) (d : file_changes) :
  lookup k (setdefault_append k v d)
  = Some (match lookup k d with Some vs => vs | None => [] end ++ [v])%list
  /\ (forall f, f <> k -> lookup f (setdefault_append k v d) = lookup f d)
  /\ keys (setdefault_append k v d)
     = (if in_dec string_dec k (keys d) then keys d else keys d ++ [k])%list.
Proof.
  split; [|split].
  - now rewrite lookup_setdefault_append, String.eqb_refl.
  - intros f Hf. rewrite lookup_setdefault_append.
    destruct (String.eqb k f) eqn:E; [|reflexivity].
    apply String.eqb_eq in E. congruence.
  - apply keys_setdefault_append.
Qed.

(** ** Rendering and reading line numbers *)

Lemma int_from_uint (d : uint) (acc : positive) :
  int_from (Z.pos acc) (NilEmpty.string_of_uint d)
  = Z.pos (Pos.of_uint_acc d acc).
Proof.
  revert acc. induction d; intros acc; cbn [NilEmpty.string_of_uint int_from
    Pos.of_uint_acc]; try reflexivity;
    match goal with
    | |- int_from ?x _ = Z.pos (Pos.of_uint_acc _ ?q) =>
        replace x with (Z.pos q); [apply IHd|]
    end;
    match goal with
    | |- context [digit_val ?c] =>
        let v := eval vm_compute in (digit_val c) in
        change (digit_val c) with v
    end; lia.
Qed.

Lemma int_from_uint_zero (d : uint) :
  int_from 0 (NilEmpty.string_of_uint d) = Z.of_N (Pos.of_uint d).
Proof.
  induction d; cbn [NilEmpty.string_of_uint int_from Pos.of_uint];
    try reflexivity; try exact IHd;
    apply (int_from_uint d).
Qed.

(** X8.  A line number rendered by ['{:d}'] and read back by [int] is the
    same number. *)
Theorem X8_int_of_rendered_number (n : Z) :
  0 <= n -> int (str_of_int n) = n.
Proof.
  intros Hn. unfold int, str_of_int.
  destruct n as [|q|q]; [reflexivity| |lia].
  cbn [Z.to_int NilZero.string_of_int].
  pose proof (DecimalPos.Unsigned.to_uint_nonnil q) as Hnil.
  pose proof (DecimalPos.Unsigned.of_to q) as Hof.
  assert (Hs : NilZero.string_of_uint (Pos.to_uint q)
               = NilEmpty.string_of_uint (Pos.to_uint q)).
  { destruct (Pos.to_uint q); [congruence | reflexivity ..]. }
  now rewrite Hs, int_from_uint_zero, Hof.
Qed.

(** X8 on the line number 120. *)
Lemma X8_int_of_rendered_number_witness : int (str_of_int 120) = 120.
Proof. apply (X8_int_of_rendered_number 120). lia. Defined.

(** ** Lines of a text *)

(** X9.  [readlines] loses nothing: the lines put together again are the
    text, so two texts have the same lines only if they are the same text. *)
Theorem X9_readlines_keeps_the_text (s s' : string) :
  concat_str (readlines s) = s
  /\ (readlines s = readlines s' <-> s = s').
Proof.
  assert (Hc : forall t, concat_str (readlines t) = t)
    by (intros t; apply (readlines_from_concat EmptyString t)).
  split; [apply Hc|]. split; [|now intros ->].
  intros Heq. rewrite <- (Hc s), <- (Hc s'). now rewrite Heq.
Qed.



(** ** The command line and [shlex.split] *)

(** X11.  Words that hold no white space, no quote and no backslash, joined
    by single blanks and split again, come back as they were. *)
Theorem X11_split_of_joined_words (ws : list string) :
  Forall word ws -> split (join " " ws) = Some ws.
Proof. apply split_join_words. Qed.

(** X11 on the command of the end-to-end scenario. *)
Lemma X11_split_of_joined_words_witness :
  split (join " " ["yapf"; "--lines"; "10-12"; "pkg/x.py"])
  = Some ["yapf"; "--lines"; "10-12"; "pkg/x.py"].
Proof.
  apply (X11_split_of_joined_words ["yapf"; "--lines"; "10-12"; "pkg/x.py"]).
  repeat (apply Forall_cons; [split; [reflexivity | discriminate]|]).
  apply Forall_nil.
Defined.

Lemma tokens_in_single_quotes (o rest tok : string) (quoted : bool)
    (es : lexstate) :
  forallb_str no_single_quote o = true ->
  tokens (o ++ String "039" rest) (Quote "039") tok quoted es
  = tokens rest Word (tok ++ o) true es.
Proof.
  revert tok quoted. induction o as [|c o IH]; intros tok quoted Ho.
  - cbn [String.append tokens Ascii.eqb Bool.eqb]. now rewrite app_empty_r.
  - cbn [forallb_str] in Ho. apply andb_true_iff in Ho as [Hc Ho].
    unfold no_single_quote in Hc. apply negb_true_iff in Hc.
    cbn [String.append tokens]. rewrite Hc.
    change (is_escapedquote "039") with false. rewrite andb_false_r.
    rewrite (IH _ true Ho). now rewrite snoc_app.
Qed.

Lemma tokens_blank_after_quoted (o rest : string) (es : lexstate) :
  tokens (String " " rest) Word o true es
  = cons_token o (tokens rest Blank EmptyString false Blank).
Proof.
  cbn [tokens].
  change (is_whitespace " ") with true. cbv iota. now rewrite orb_true_r.
Qed.

(** Words, then what the rest gives. *)
Lemma tokens_words_then (ws : list string) (rest : string) :
  Forall word ws ->
  ws <> [] ->
  tokens (join " " ws ++ " " ++ rest) Blank EmptyString false Blank
  = option_map (List.app ws) (tokens rest Blank EmptyString false Blank).
Proof.
  intros Hall Hne. induction Hall as [|w ws Hw Hws IH]; [congruence|].
  destruct ws as [|w2 ws].
  - cbn [join]. rewrite (tokens_word _ _ Hw).
    rewrite (tokens_blank_after_word w _ Blank (proj2 Hw)).
    now destruct (tokens rest Blank EmptyString false Blank).
  - change (join " " (w :: w2 :: ws)) with (w ++ " " ++ join " " (w2 :: ws)).
    rewrite !app_assoc_str. rewrite (tokens_word _ _ Hw).
    rewrite (tokens_blank_after_word w _ Blank (proj2 Hw)).
    rewrite IH by discriminate.
    now destruct (tokens rest Blank EmptyString false Blank).
Qed.

Lemma split_with_quoted (pre post : list string) (o : string) :
  Forall word pre -> pre <> [] ->
  Forall word post -> post <> [] ->
  forallb_str no_single_quote o = true ->
  split (join " " (pre ++ (String "039" (o ++ String "039" EmptyString)) :: post))
  = Some (pre ++ o :: post)%list.
Proof.
  intros Hpre Hnpre Hpost Hnpost Ho. unfold split.
  rewrite join_app; [|exact Hnpre|discriminate].
  rewrite (tokens_words_then pre _ Hpre Hnpre).
  destruct post as [|q post]; [congruence|].
  change (join " " (String "039" (o ++ String "039" "") :: q :: post))
    with (String "039" (o ++ String "039" "") ++ " " ++ join " " (q :: post)).
  cbn [String.append]. rewrite app_assoc_str.
  cbn [tokens]. change (is_whitespace "039") with false.
  change (is_escape "039") with false. change (is_quote "039") with true.
  cbv iota.
  change (String "039" "" ++ String " " (join " " (q :: post)))
    with (String "039" (" " ++ join " " (q :: post))).
  rewrite (tokens_in_single_quotes o _ EmptyString false Blank Ho).
  cbn [String.append].
  rewrite (tokens_blank_after_quoted o (join " " (q :: post)) Blank).
  fold (split (join " " (q :: post))).
  now rewrite (split_join_words (q :: post) Hpost).
Qed.

(** X12.  An option wrapped in single quotes reaches the formatter as one
    argument without the quotes, whatever blanks, double quotes or
    backslashes it holds. *)
Theorem X12_single_quoted_option_is_one_argument (a : Main.args)
    (self : CodeFormatter.t) (exts : list string) (f : string)
    (lines : list range) (o : string) :
  Main.select_formatter a = Some (self, exts) ->
  lines <> [] ->
  word f ->
  forallb_str no_single_quote o = true ->
  Main.options a = Some [String "039" (o ++ String "039" EmptyString)] ->
  CodeFormatter.command self f lines (Main.i a) (Main.options a)
  = Ok ([CodeFormatter.binary self]
          ++ (if Main.i a then ["-i"] else [])
          ++ [o]
          ++ List.concat (map (range_words self) lines)
          ++ [f])%list.
Proof.
  intros Hsel Hlines Hf Ho Hopt.
  destruct (select_formatter_words a self exts Hsel) as [Hbin Hw].
  rewrite Hopt. unfold CodeFormatter.command.
  destruct lines as [|r0 lines0] eqn:El; [congruence|]. rewrite <- El.
  assert (Hz : CodeFormatter.unzip_lines lines
               = Some (map fst lines, map snd lines)) by now rewrite El.
  rewrite Hz, (map_format_words _ (range_words self) lines
                 (fun r => proj1 (Hw r))).
  set (q := String "039" (o ++ String "039" EmptyString)).
  set (pre := ([CodeFormatter.binary self]
                 ++ (if Main.i a then ["-i"] else []))%list).
  set (post := (List.concat (map (range_words self) lines) ++ [f])%list).
  set (wss := (map (fun x => [x]) pre ++ [[q]]
                 ++ map (range_words self) lines ++ [[f]])%list).
  assert (Hp : CodeFormatter.pieces self f
                 (map (fun r => join " " (range_words self r)) lines)
                 (Main.i a) (Some [q])
               = map (join " ") wss).
  { unfold CodeFormatter.pieces, wss, pre.
    rewrite !map_app, !map_map. cbn [map join]. rewrite map_id.
    destruct (Main.i a); reflexivity. }
  assert (Hc : List.concat wss = (pre ++ q :: post)%list).
  { unfold wss, post. rewrite !concat_app, concat_singletons.
    cbn [List.concat List.app]. reflexivity. }
  assert (Hne : Forall (fun ws => ws <> []) wss).
  { unfold wss. repeat (apply Forall_app; split).
    - apply Forall_map, Forall_forall. intros; discriminate.
    - repeat constructor; discriminate.
    - apply Forall_map, Forall_forall. intros r _. apply (Hw r).
    - repeat constructor; discriminate. }
  rewrite Hp, (join_flatten wss Hne), Hc.
  assert (Hpre : Forall word pre).
  { unfold pre. apply Forall_app. split.
    - apply Forall_cons; [exact Hbin | apply Forall_nil].
    - destruct (Main.i a); [|apply Forall_nil].
      apply Forall_cons; [split; [reflexivity | discriminate] | apply Forall_nil]. }
  assert (Hpost : Forall word post).
  { unfold post. apply Forall_app. split.
    - apply Forall_concat, Forall_map, Forall_forall. intros r _. apply (Hw r).
    - apply Forall_cons; [exact Hf | apply Forall_nil]. }
  unfold q. rewrite (split_with_quoted pre post o Hpre); try assumption.
  - unfold pre, post. now rewrite <- !app_assoc.
  - unfold pre. discriminate.
  - unfold post. intros E. apply app_eq_nil in E as [_ E]. discriminate.
Qed.

(** X12 on a style given in single quotes. *)
Lemma X12_single_quoted_option_is_one_argument_witness :
  CodeFormatter.command Demo.yapf "x.py" [(1, 1)] false
    (Some [String "039" ("--style={a: b}" ++ String "039" EmptyString)])
  = Ok ["yapf"; "--style={a: b}"; "--lines"; "1-1"; "x.py"].
Proof.
  refine (X12_single_quoted_option_is_one_argument
            {| Main.i := false; Main.dry_run := false; Main.FORMATTER := "yapf";
               Main.p := 0;
               Main.options :=
                 Some [String "039" ("--style={a: b}" ++ String "039" EmptyString)] |}
            {| CodeFormatter.binary := "yapf";
               CodeFormatter.line_format := Main.yapf_lines;
               CodeFormatter.options :=
                 Some [String "039" ("--style={a: b}" ++ String "039" EmptyString)] |}
            Main.yapf_files "x.py" [(1, 1)] "--style={a: b}"
            _ _ _ _ _).
  - reflexivity.
  - discriminate.
  - split; [reflexivity | discriminate].
  - reflexivity.
  - reflexivity.
Defined.

(** X13.  Whatever the options, the filename and the ranges, when a command
    can be built its first word is the binary of the formatter: nothing the
    diff or the options hold can put another program in its place. *)
Theorem X13_first_word_is_the_binary (a : Main.args) (self : CodeFormatter.t)
    (exts : list string) (f : string) (lines : list range) (inplace : bool)
    (options : option (list string)) (argv : list string) :
  Main.select_formatter a = Some (self, exts) ->
  CodeFormatter.command self f lines inplace options = Ok argv ->
  exists rest, argv = CodeFormatter.binary self :: rest.
Proof.
  intros Hsel. destruct (select_formatter_words a self exts Hsel) as [Hbin _].
  unfold CodeFormatter.command.
  destruct (CodeFormatter.unzip_lines lines) as [[starts ends]|]; [|discriminate].
  destruct (CodeFormatter.map_format _ starts ends) as [line_args|];
    [|discriminate].
  unfold CodeFormatter.pieces. cbn [List.app].
  set (tl := ((if inplace then ["-i"] else [])
                ++ match options with Some o => o | None => [] end
                ++ line_args ++ [f])%list).
  assert (Htl : tl <> []).
  { unfold tl. intros E. apply app_eq_nil in E as [_ E].
    apply app_eq_nil in E as [_ E]. apply app_eq_nil in E as [_ E].
    discriminate. }
  destruct tl as [|t tl']; [congruence|].
  change (join " " (CodeFormatter.binary self :: t :: tl'))
    with (CodeFormatter.binary self ++ " " ++ join " " (t :: tl')).
  unfold split. rewrite (tokens_word _ _ Hbin).
  rewrite (tokens_blank_after_word _ _ Blank (proj2 Hbin)).
  destruct (tokens (join " " (t :: tl')) Blank EmptyString false Blank)
    as [rest|]; [|discriminate].
  intros [= <-]. now exists rest.
Qed.

(** X13 on options that try to smuggle a second command in. *)
Lemma X13_first_word_is_the_binary_witness :
  exists rest,
    ["yapf"; "x;"; "rm"; "-rf"; "--lines"; "1-1"; "x.py"] = "yapf" :: rest.
Proof.
  apply (X13_first_word_is_the_binary (Demo.yapf_args 0 false) Demo.yapf
           Main.yapf_files "x.py" [(1, 1)] false (Some ["x; rm -rf"])).
  - reflexivity.
  - reflexivity.
Defined.


(** ** Children and files in a normal run *)

Lemma popens_app (t t' : list event) :
  popens (t ++ t') = (popens t ++ popens t')%list.
Proof.
  induction t as [|e t IH]; [reflexivity|].
  destruct e; cbn [List.app popens]; now rewrite ?IH.
Qed.

Section NormalRunFacts.
Context `{Platform}.

(** The ways the body of the loop can go in a normal run. *)
Lemma format_file_cases (self : CodeFormatter.t) (f : string)
    (lines : list range) (inplace : bool) (options : option (list string))
    (w : World) :
  match CodeFormatter.command self f lines inplace options with
  | Halt h =>
      CodeFormatter.format_file self f lines inplace options false w
      = ([], w, Halt h)
  | Ok argv =>
      match popen argv w with
      | (None, w') =>
          CodeFormatter.format_file self f lines inplace options false w
          = ([Popen argv], w', Halt (Raised "OSError"))
      | (Some r, w') =>
          if returncode r =? 0 then
            if inplace then
              CodeFormatter.format_file self f lines inplace options false w
              = ([Popen argv], w', Ok tt)
            else
              match open_read f w' with
              | None =>
                  CodeFormatter.format_file self f lines inplace options false w
                  = ([Popen argv; OpenRead f], w', Halt (Raised "OSError"))
              | Some b =>
                  match locale_decode b, decode_utf8 (stdout r) with
                  | Some orig, Some text =>
                      exists out,
                        CodeFormatter.format_file self f lines inplace options
                          false w
                        = (Popen argv :: OpenRead f :: map Stdout out, w',
                           Ok tt)
                  | _, _ =>
                      CodeFormatter.format_file self f lines inplace options
                        false w
                      = ([Popen argv; OpenRead f], w',
                         Halt (Raised "UnicodeDecodeError"))
                  end
              end
          else
            match decode_utf8 (stderr r) with
            | Some text =>
                CodeFormatter.format_file self f lines inplace options false w
                = ([Popen argv; Stderr text], w',
                   Halt (SysExit (returncode r)))
            | None =>
                CodeFormatter.format_file self f lines inplace options false w
                = ([Popen argv], w', Halt (Raised "UnicodeDecodeError"))
            end
      end
  end.
Proof.
  unfold CodeFormatter.format_file, bind, lift, communicate, emit, sys_exit,
    ret, open_readlines, decode.
  destruct (CodeFormatter.command self f lines inplace options) as [argv|h];
    [|reflexivity].
  cbn [negb]. destruct (popen argv w) as [[r|] w']; [|reflexivity].
  destruct (returncode r =? 0); cbn [negb];
    [|destruct (decode_utf8 (stderr r)); reflexivity].
  destruct inplace; cbn [negb]; [reflexivity|].
  destruct (open_read f w') as [b|]; [|reflexivity].
  destruct (locale_decode b) as [orig|]; [|reflexivity].
  destruct (decode_utf8 (stdout r)) as [text|]; [|reflexivity].
  match goal with
  | |- context [(0 <? String.length ?d)%nat] =>
      destruct (0 <? String.length d)%nat;
        [exists [d] | exists []]; reflexivity
  end.
Qed.

Lemma format_file_ok (self : CodeFormatter.t) (f : string)
    (lines : list range) (inplace : bool) (options : option (list string))
    (w w' : World) (t : list event) :
  CodeFormatter.format_file self f lines inplace options false w
  = (t, w', Ok tt) ->
  exists argv,
    CodeFormatter.command self f lines inplace options = Ok argv
    /\ popens t = [argv].
Proof.
  pose proof (format_file_cases self f lines inplace options w) as Hc.
  destruct (CodeFormatter.command self f lines inplace options) as [argv|h];
    [|rewrite Hc; discriminate].
  destruct (popen argv w) as [[r|] w1]; [|rewrite Hc; discriminate].
  destruct (returncode r =? 0);
    [|destruct (decode_utf8 (stderr r)); rewrite Hc; discriminate].
  destruct inplace.
  - rewrite Hc. intros [= <- <-]. now exists argv.
  - destruct (open_read f w1) as [b|]; [|rewrite Hc; discriminate].
    destruct (locale_decode b) as [orig|]; [|rewrite Hc; discriminate].
    destruct (decode_utf8 (stdout r)) as [text|]; [|rewrite Hc; discriminate].
    destruct Hc as [out Hc]. rewrite Hc. intros [= <- <-].
    exists argv. split; [reflexivity|]. cbn [popens]. f_equal.
    clear Hc. induction out as [|d out IH]; [reflexivity | exact IH].
Qed.

Lemma format_code_ok (self : CodeFormatter.t) (items : file_changes)
    (inplace : bool) (options : option (list string)) :
  forall (w w' : World) (t : list event),
    CodeFormatter.format_code self items inplace options false w
    = (t, w', Ok tt) ->
    all_commands self items inplace options = Some (popens t).
Proof.
  induction items as [|[f lines] rest IH]; intros w w' t.
  - cbn [CodeFormatter.format_code]. unfold ret. now intros [= <- <-].
  - cbn [CodeFormatter.format_code all_commands]. unfold bind.
    destruct (CodeFormatter.format_file self f lines inplace options false w)
      as [[t1 w1] [[]|h]] eqn:E1; [|discriminate].
    destruct (CodeFormatter.format_code self rest inplace options false w1)
      as [[t2 w2] r2] eqn:E2.
    intros [= <- <- ->].
    destruct (format_file_ok _ _ _ _ _ _ _ _ E1) as (argv & Hcmd & Hp).
    rewrite Hcmd, (IH _ _ _ E2), popens_app, Hp. reflexivity.
Qed.

Lemma format_code_in_place_quiet (self : CodeFormatter.t)
    (items : file_changes) (options : option (list string)) :
  forall w : World,
    Forall (fun e => ~ reads_or_prints e)
      (trace_of (CodeFormatter.format_code self items true options false w)).
Proof.
  induction items as [|[f lines] rest IH]; intros w.
  - constructor.
  - cbn [CodeFormatter.format_code]. unfold bind.
    pose proof (format_file_cases self f lines true options w) as Hc.
    destruct (CodeFormatter.command self f lines true options) as [argv|h].
    + destruct (popen argv w) as [[r|] w1].
      * destruct (returncode r =? 0).
        -- rewrite Hc. specialize (IH w1).
           destruct (CodeFormatter.format_code self rest true options false w1)
             as [[t2 w2] r2].
           cbn [trace_of fst List.app] in *.
           constructor; [intros [] | exact IH].
        -- destruct (decode_utf8 (stderr r)); rewrite Hc;
             repeat constructor; intros [].
      * rewrite Hc. repeat constructor; intros [].
    + rewrite Hc. constructor.
Qed.

End NormalRunFacts.

(** X14.  A normal run that ends without failure has started exactly one
    child per file of the mapping, in the order of the mapping, each with
    the command of its file. *)
Theorem X14_one_child_per_file `{Platform} (self : CodeFormatter.t)
    (items : file_changes) (inplace : bool) (options : option (list string))
    (w w' : World) (t : list event) :
  CodeFormatter.format_code self items inplace options false w
  = (t, w', Ok tt) ->
  all_commands self items inplace options = Some (popens t)
  /\ List.length (popens t) = List.length items.
Proof.
  intros Hrun. pose proof (format_code_ok _ _ _ _ _ _ _ Hrun) as Hall.
  split; [exact Hall|].
  clear Hrun. revert Hall. generalize (popens t). clear t.
  induction items as [|[f lines] rest IH]; intros argvs.
  - now intros [= <-].
  - cbn [all_commands].
    destruct (CodeFormatter.command self f lines inplace options); [|discriminate].
    destruct (all_commands self rest inplace options) as [l|] eqn:E;
      [|discriminate].
    intros [= <-]. cbn [List.length]. f_equal. now apply IH.
Qed.

(** X14 on two files that the formatter leaves as they are. *)
Lemma X14_one_child_per_file_witness :
  all_commands Demo.yapf [("a.py", [(1, 1)]); ("b.py", [(2, 2)])] false None
  = Some (popens [Popen ["yapf"; "--lines"; "1-1"; "a.py"]; OpenRead "a.py";
                  Popen ["yapf"; "--lines"; "2-2"; "b.py"]; OpenRead "b.py"])
  /\ List.length
       (popens [Popen ["yapf"; "--lines"; "1-1"; "a.py"]; OpenRead "a.py";
                Popen ["yapf"; "--lines"; "2-2"; "b.py"]; OpenRead "b.py"])
     = List.length [("a.py", [(1, 1)]); ("b.py", [(2:Z, 2:Z)])].
Proof.
  apply (@X14_one_child_per_file (Demo.formatter_of "" "") Demo.yapf
           [("a.py", [(1, 1)]); ("b.py", [(2, 2)])] false None O 2%nat).
  reflexivity.
Defined.

(** X15.  With [-i], whatever happens, a normal run opens no file and
    writes nothing to standard output: changing the files is left to the
    children. *)
Theorem X15_in_place_reads_and_prints_nothing `{Platform}
    (self : CodeFormatter.t) (items : file_changes)
    (options : option (list string)) (w : World) :
  Forall (fun e => ~ reads_or_prints e)
    (trace_of (CodeFormatter.format_code self items true options false w)).
Proof. apply format_code_in_place_quiet. Qed.

(** ** Runs in which nothing is selected *)

Lemma appends_without_hunk (p : nat) (exts : list string)
    (lines : list string) :
  Forall (fun l => hunk_match l = None) lines ->
  forall fn, appends p exts lines fn = [].
Proof.
  intros Hall. induction Hall as [|l lines Hl _ IH]; intros fn; [reflexivity|].
  cbn [appends]. rewrite IH. unfold appended. rewrite Hl.
  destruct (next_filename p l fn) as [f|]; [|reflexivity].
  now destruct (supported_match exts f).
Qed.

Lemma appends_unsupported (p : nat) (exts : list string)
    (lines : list string) :
  Forall (fun l => forall f, header_match p l = Some f ->
                             supported_match exts f = false) lines ->
  forall fn,
    match fn with Some f => supported_match exts f = false | None => True end ->
    appends p exts lines fn = [].
Proof.
  intros Hall. induction Hall as [|l lines Hl _ IH]; intros fn Hfn;
    [reflexivity|].
  cbn [appends].
  assert (Hnext : match next_filename p l fn with
                  | Some f => supported_match exts f = false
                  | None => True
                  end).
  { unfold next_filename. destruct (header_match p l) as [g|]; [|exact Hfn].
    now apply Hl. }
  rewrite (IH _ Hnext). unfold appended.
  destruct (next_filename p l fn) as [f|]; [|reflexivity].
  now rewrite Hnext.
Qed.

Lemma main_nothing_selected `{Platform} (a : Main.args) (stdin : list string)
    (w : World) (self : CodeFormatter.t) (exts : list string) :
  Main.select_formatter a = Some (self, exts) ->
  appends (Main.p a) exts stdin None = [] ->
  Main.main a stdin w = (map StdinLine stdin, w, Ok tt).
Proof.
  intros Hsel Happ. rewrite (main_known a stdin w self exts Hsel).
  rewrite extract_spec, Happ. cbn. now rewrite app_nil_r.
Qed.

(** X16.  When no line of the input is a hunk header, the script reads the
    input and ends normally: it starts no child, opens no file and writes
    nothing, with or without [-i] and [-n]. *)
Theorem X16_no_hunk_header_no_child `{Platform} (a : Main.args)
    (stdin : list string) (w : World) (self : CodeFormatter.t)
    (exts : list string) :
  Main.select_formatter a = Some (self, exts) ->
  Forall (fun l => hunk_match l = None) stdin ->
  Main.main a stdin w = (map StdinLine stdin, w, Ok tt).
Proof.
  intros Hsel Hall. apply (main_nothing_selected a stdin w self exts Hsel).
  now apply appends_without_hunk.
Qed.

(** X16 on a diff that names a file but holds no hunk. *)
Lemma X16_no_hunk_header_no_child_witness :
  @Main.main Demo.broken (Demo.yapf_args 1 false)
    [("--- a/x.py" ++ NL)%string; ("+++ b/x.py" ++ NL)%string] O
  = (map StdinLine [("--- a/x.py" ++ NL)%string; ("+++ b/x.py" ++ NL)%string],
     O, Ok tt).
Proof.
  apply (@X16_no_hunk_header_no_child Demo.broken (Demo.yapf_args 1 false)
           [("--- a/x.py" ++ NL)%string; ("+++ b/x.py" ++ NL)%string]
           O Demo.yapf Main.yapf_files).
  - reflexivity.
  - apply Forall_cons; [reflexivity|].
    apply Forall_cons; [reflexivity | apply Forall_nil].
Defined.

(** X17.  When every file header of the input names a file the formatter
    does not handle, the script reads the input and ends normally without
    starting a child, whatever hunks the input holds. *)
Theorem X17_unsupported_files_no_child `{Platform} (a : Main.args)
    (stdin : list string) (w : World) (self : CodeFormatter.t)
    (exts : list string) :
  Main.select_formatter a = Some (self, exts) ->
  Forall (fun l => forall f, header_match (Main.p a) l = Some f ->
                             supported_match exts f = false) stdin ->
  Main.main a stdin w = (map StdinLine stdin, w, Ok tt).
Proof.
  intros Hsel Hall. apply (main_nothing_selected a stdin w self exts Hsel).
  now apply (appends_unsupported (Main.p a) exts stdin Hall None).
Qed.

(** X17 on a diff of [notes.txt] given to [yapf]. *)
Lemma X17_unsupported_files_no_child_witness :
  @Main.main Demo.broken (Demo.yapf_args 1 false)
    ["+++ b/notes.txt" ++ NL; "@@ -1 +1,2 @@" ++ NL] O
  = (map StdinLine ["+++ b/notes.txt" ++ NL; "@@ -1 +1,2 @@" ++ NL], O, Ok tt).
Proof.
  apply (@X17_unsupported_files_no_child Demo.broken (Demo.yapf_args 1 false)
           ["+++ b/notes.txt" ++ NL; "@@ -1 +1,2 @@" ++ NL]
           O Demo.yapf Main.yapf_files).
  - reflexivity.
  - apply Forall_cons; [|apply Forall_cons; [|apply Forall_nil]].
    + intros f Hf. vm_compute in Hf. injection Hf as <-. reflexivity.
    + intros f Hf. vm_compute in Hf. discriminate.
Defined.

(** ** Exceptions in a normal run *)

(** X18.  In a normal run, when the child of a file cannot be started, the
    run ends there with the exception, whose exit status is 1: nothing is
    written and the files queued after it are left alone. *)
Theorem X18_child_cannot_start `{Platform} (a : Main.args)
    (stdin : list string) (self : CodeFormatter.t) (exts : list string)
    (pre post : file_changes) (f : string) (lines : list range)
    (w w1 w2 : World) (t1 : list event) (argv : list string) :
  Main.dry_run a = false ->
  Main.select_formatter a = Some (self, exts) ->
  extract (Main.p a) exts stdin = (pre ++ (f, lines) :: post)%list ->
  CodeFormatter.format_code self pre (Main.i a) (Main.options a) false w
  = (t1, w1, Ok tt) ->
  CodeFormatter.command self f lines (Main.i a) (Main.options a) = Ok argv ->
  popen argv w1 = (None, w2) ->
  Main.main a stdin w
  = ((map StdinLine stdin ++ t1 ++ [Popen argv])%list, w2,
     Halt (Raised "OSError"))
  /\ Main.exit_status (result_of (Main.main a stdin w)) = 1.
Proof.
  intros Hdry Hsel Hex Hpre Hcmd Hp.
  assert (Hmain : Main.main a stdin w
                  = ((map StdinLine stdin ++ t1 ++ [Popen argv])%list, w2,
                     Halt (Raised "OSError"))).
  { rewrite (main_known a stdin w self exts Hsel), Hdry, Hex.
    rewrite format_code_app, (bind_ok _ _ _ _ _ _ Hpre).
    cbn [CodeFormatter.format_code].
    pose proof (format_file_cases self f lines (Main.i a) (Main.options a) w1)
      as Hc.
    rewrite Hcmd, Hp in Hc.
    now rewrite (bind_halt _ _ _ _ _ _ Hc). }
  split; [exact Hmain | now rewrite Hmain].
Qed.

(** X18 on a machine without the formatter: nothing is done for [b.py]. *)
Lemma X18_child_cannot_start_witness :
  @Main.main Demo.absent (Demo.yapf_args 1 false) Demo.two_files O
  = ((map StdinLine Demo.two_files ++ []
        ++ [Popen ["yapf"; "--lines"; "1-1"; "a.py"]])%list,
     O, Halt (Raised "OSError"))
  /\ Main.exit_status
       (result_of (@Main.main Demo.absent (Demo.yapf_args 1 false)
                     Demo.two_files O)) = 1.
Proof.
  refine (@X18_child_cannot_start Demo.absent (Demo.yapf_args 1 false)
            Demo.two_files _ Main.yapf_files [] [("b.py", [(2, 2)])]
            "a.py" [(1, 1)] O O O [] ["yapf"; "--lines"; "1-1"; "a.py"]
            _ _ _ _ _ _);
    reflexivity.
Defined.

(** X19.  In a normal run without [-i], when the child of a file has ended
    with status 0 but the file cannot be read, the run ends there with the
    exception, whose exit status is 1: no diff is written and the files
    queued after it are left alone. *)
Theorem X19_file_cannot_be_read `{Platform} (a : Main.args)
    (stdin : list string) (self : CodeFormatter.t) (exts : list string)
    (pre post : file_changes) (f : string) (lines : list range)
    (w w1 w2 : World) (t1 : list event) (argv : list string) (r : completed) :
  Main.dry_run a = false ->
  Main.i a = false ->
  Main.select_formatter a = Some (self, exts) ->
  extract (Main.p a) exts stdin = (pre ++ (f, lines) :: post)%list ->
  CodeFormatter.format_code self pre false (Main.options a) false w
  = (t1, w1, Ok tt) ->
  CodeFormatter.command self f lines false (Main.options a) = Ok argv ->
  popen argv w1 = (Some r, w2) ->
  returncode r = 0 ->
  open_read f w2 = None ->
  Main.main a stdin w
  = ((map StdinLine stdin ++ t1 ++ [Popen argv; OpenRead f])%list, w2,
     Halt (Raised "OSError"))
  /\ Main.exit_status (result_of (Main.main a stdin w)) = 1.
Proof.
  intros Hdry Hi Hsel Hex Hpre Hcmd Hp Hrc Hopen.
  assert (Hmain : Main.main a stdin w
                  = ((map StdinLine stdin ++ t1
                        ++ [Popen argv; OpenRead f])%list, w2,
                     Halt (Raised "OSError"))).
  { rewrite (main_known a stdin w self exts Hsel), Hdry, Hi, Hex.
    rewrite format_code_app, (bind_ok _ _ _ _ _ _ Hpre).
    cbn [CodeFormatter.format_code].
    pose proof (format_file_cases self f lines false (Main.options a) w1)
      as Hc.
    rewrite Hcmd, Hp, Hrc, Hopen in Hc. cbn [Z.eqb] in Hc.
    now rewrite (bind_halt _ _ _ _ _ _ Hc). }
  split; [exact Hmain | now rewrite Hmain].
Qed.

(** X19 on a disk without files: the child of [a.py] has run, [a.py] cannot
    be read, and [b.py] is never formatted. *)
Lemma X19_file_cannot_be_read_witness :
  @Main.main Demo.idle (Demo.yapf_args 1 false) Demo.two_files O
  = ((map StdinLine Demo.two_files ++ []
        ++ [Popen ["yapf"; "--lines"; "1-1"; "a.py"]; OpenRead "a.py"])%list,
     1%nat, Halt (Raised "OSError"))
  /\ Main.exit_status
       (result_of (@Main.main Demo.idle (Demo.yapf_args 1 false)
                     Demo.two_files O)) = 1.
Proof.
  refine (@X19_file_cannot_be_read Demo.idle (Demo.yapf_args 1 false)
            Demo.two_files _ Main.yapf_files [] [("b.py", [(2, 2)])]
            "a.py" [(1, 1)] O O 1%nat [] ["yapf"; "--lines"; "1-1"; "a.py"]
            (Demo.silent []) _ _ _ _ _ _ _ _ _);
    reflexivity.
Defined.


(** ** What a dry run prints *)

Lemma non_space_not_whitespace (c : ascii) :
  non_space c = true -> is_whitespace c = false.
Proof.
  destruct c as [[] [] [] [] [] [] [] []]; intros Hc;
    try reflexivity; discriminate.
Qed.

Lemma word_of_name (f : string) :
  forallb_str non_space f = true ->
  forallb_str unquoted f = true ->
  f <> EmptyString ->
  word f.
Proof.
  intros Hns Hu Hne. split; [|exact Hne]. clear Hne.
  induction f as [|c f IH]; [reflexivity|].
  cbn [forallb_str] in *. apply andb_true_iff in Hns as [Hc Hns].
  apply andb_true_iff in Hu as [Hq Hu]. rewrite (IH Hns Hu), andb_true_r.
  unfold safe. unfold unquoted in Hq.
  apply andb_true_iff in Hq as [Hq He].
  now rewrite (non_space_not_whitespace c Hc), Hq, He.
Qed.

Lemma appended_name (p : nat) (exts : list string) (line : string)
    (fn : option string) (e : string * range) :
  filename_ok fn -> appended p exts line fn = Some e ->
  forallb_str non_space (fst e) = true /\ supported_match exts (fst e) = true.
Proof.
  intros Hfn. unfold appended.
  pose proof (next_filename_ok p line fn Hfn) as Hn.
  destruct (next_filename p line fn) as [f|]; [|discriminate].
  destruct (supported_match exts f) eqn:Es; [|discriminate].
  destruct (hunk_match line) as [g|]; [|discriminate].
  destruct (hunk_range g) as [r|]; [|discriminate].
  intros [= <-]. now split.
Qed.

Lemma appends_names (p : nat) (exts : list string) (lines : list string)
    (fn : option string) :
  filename_ok fn ->
  Forall (fun e => forallb_str non_space (fst e) = true
                   /\ supported_match exts (fst e) = true)
    (appends p exts lines fn).
Proof.
  revert fn. induction lines as [|line rest IH]; intros fn Hfn; simpl.
  - constructor.
  - apply Forall_app. split.
    + destruct (appended p exts line fn) as [e|] eqn:E; constructor.
      * eapply appended_name; eassumption.
      * constructor.
    + apply IH, next_filename_ok, Hfn.
Qed.

(** The files of the mapping have names without white space and at least one
    range each. *)
Lemma extract_entries (p : nat) (exts : list string) (lines : list string)
    (f : string) (rs : list range) :
  In (f, rs) (extract p exts lines) ->
  rs <> []
  /\ forallb_str non_space f = true
  /\ f <> EmptyString.
Proof.
  intros Hin.
  assert (Hnd : NoDup (keys (extract p exts lines))).
  { rewrite extract_spec. apply record_all_nodup. constructor. }
  pose proof (in_lookup _ _ _ Hnd Hin) as Hl.
  rewrite extract_spec, lookup_record_all in Hl. cbn [lookup] in Hl.
  destruct (ranges_of f (appends p exts lines None)) as [|r rs'] eqn:E;
    [discriminate|].
  injection Hl as <-. split; [discriminate|].
  assert (Hr : In (f, r) (appends p exts lines None)).
  { apply ranges_of_in. rewrite E. now left. }
  pose proof (appends_names p exts lines None I) as Hall.
  rewrite Forall_forall in Hall. destruct (Hall _ Hr) as [Hns Hsup].
  split; [exact Hns|]. cbn [fst] in Hsup. intros ->. discriminate.
Qed.

Lemma all_commands_expected (a : Main.args) (self : CodeFormatter.t)
    (exts : list string) (items : file_changes) :
  Main.select_formatter a = Some (self, exts) ->
  Forall word (forwarded (Main.options a)) ->
  Forall (fun kv => word (fst kv) /\ snd kv <> []) items ->
  all_commands self items (Main.i a) (Main.options a)
  = Some (map (expected_command self (Main.i a) (Main.options a)) items).
Proof.
  intros Hsel Hopts Hall.
  destruct (select_formatter_words a self exts Hsel) as [Hbin Hw].
  induction Hall as [|[f rs] items [Hf Hrs] _ IH]; [reflexivity|].
  cbn [all_commands map fst snd] in *.
  rewrite (command_words self (range_words self) f rs (Main.i a)
             (Main.options a) Hw Hrs Hbin Hf Hopts), IH.
  reflexivity.
Qed.

(** X20.  In a dry run with a known formatter, when the forwarded options
    are plain words and no selected filename holds a quote or a backslash,
    the script prints for every file of the mapping, in order, the line
    made of the binary, [-i] if given, the options, the words of each range
    and the filename, and ends normally. *)
Theorem X20_dry_run_prints_the_commands `{Platform} (a : Main.args)
    (stdin : list string) (w : World) (self : CodeFormatter.t)
    (exts : list string) :
  Main.select_formatter a = Some (self, exts) ->
  Main.dry_run a = true ->
  Forall word (forwarded (Main.options a)) ->
  Forall (fun kv : string * list range => forallb_str unquoted (fst kv) = true)
    (extract (Main.p a) exts stdin) ->
  Main.main a stdin w
  = ((map StdinLine stdin
        ++ map (fun kv =>
                  printed (expected_command self (Main.i a) (Main.options a) kv))
             (extract (Main.p a) exts stdin))%list,
     w, Ok tt).
Proof.
  intros Hsel Hdry Hopts Hnames.
  rewrite (main_known a stdin w self exts Hsel), Hdry, format_code_dry.
  assert (Hitems : Forall (fun kv : string * list range =>
                             word (fst kv) /\ snd kv <> [])
                     (extract (Main.p a) exts stdin)).
  { rewrite Forall_forall in *. intros [f rs] Hin. cbn [fst snd].
    destruct (extract_entries _ _ _ _ _ Hin) as (Hrs & Hns & Hne).
    split; [|exact Hrs]. apply word_of_name; try assumption.
    exact (Hnames _ Hin). }
  rewrite (dry_run_of_all _ _ _ _ _
             (all_commands_expected a self exts _ Hsel Hopts Hitems)).
  cbn [fst snd trace_of world_of result_of]. now rewrite map_map.
Qed.

(** X20 on the diff of the end-to-end scenario, with [-i]. *)
Lemma X20_dry_run_prints_the_commands_witness :
  @Main.main Demo.absent
    {| Main.i := true; Main.dry_run := true; Main.FORMATTER := "clang-format";
       Main.p := 1; Main.options := Some ["-style=file"] |}
    [("+++ b/src/a.cpp" ++ NL)%string; ("@@ -3,2 +3,4 @@" ++ NL)%string] O
  = ((map StdinLine
         [("+++ b/src/a.cpp" ++ NL)%string; ("@@ -3,2 +3,4 @@" ++ NL)%string]
        ++ [Stdout ("clang-format -i -style=file -lines=3:6 src/a.cpp"
                      ++ NL)%string])%list,
     O, Ok tt).
Proof.
  refine (@X20_dry_run_prints_the_commands Demo.absent
            {| Main.i := true; Main.dry_run := true;
               Main.FORMATTER := "clang-format";
               Main.p := 1; Main.options := Some ["-style=file"] |}
            [("+++ b/src/a.cpp" ++ NL)%string; ("@@ -3,2 +3,4 @@" ++ NL)%string] O
            {| CodeFormatter.binary := "clang-format";
               CodeFormatter.line_format := Main.clang_format_lines;
               CodeFormatter.options := Some ["-style=file"] |}
            Main.clang_format_files _ _ _ _).
  - reflexivity.
  - reflexivity.
  - apply Forall_cons; [split; [reflexivity | discriminate] | apply Forall_nil].
  - apply Forall_cons; [reflexivity | apply Forall_nil].
Defined.
